(** * Image preprocessing pipeline for OCR: a shallow embedding

    The TypeScript module [imageProcessing] (integral image, adaptive
    threshold, median filter, and the [preprocessImage] orchestrator) and
    the part of [handleFile] that calls it, as Rocq functions over typed
    arrays, with the properties its specification states about them.

    Conventions of the embedding.
    - A [Uint8ClampedArray] or [Int32Array] is a [list Z].  Reading outside
      the array yields [undefined] ([None]); writing outside it is ignored.
    - A JavaScript number that is an integer is an [option Z]: [None] is
      [NaN], which is also what [undefined] becomes in arithmetic.  All
      integer quantities of the pixel loops stay far below [2^53], where
      binary64 addition, subtraction and multiplication are exact.
    - The local mean [sum / count] is an exact rational ([option Q]).  Its
      only use is the test [value > mean - constant] with an integer value
      and an integer constant; a quotient of integers is at least [1/count]
      away from every integer it differs from, far more than the rounding
      error of binary64 for any [count] below [2^31], so the test has the
      same outcome in binary64 and in exact arithmetic.
    - The luminance [0.299*r + 0.587*g + 0.114*b] is computed with the
      kernel's binary64 floats, which are the numbers JavaScript uses. *)

From Stdlib Require Import ZArith QArith Lia Bool String.
From Stdlib Require Import Sorting.Permutation Sorting.Sorted.
From Stdlib Require Import Uint63 PrimFloat.
From stdpp Require Import base list.

Local Open Scope Z_scope.

(* The decimal weights of the luminance are meant as their nearest binary64
   values, exactly as the source's literals are. *)
#[local] Set Warnings "-inexact-float".

(** ** Typed arrays *)

Module TypedArray.

(** [a[i]]: [undefined] outside the array, also for a negative index. *)
Definition read (a : list Z) (i : Z) : option Z :=
  if i <? 0 then None else a !! Z.to_nat i.

(** [a[i] = v] for a value already converted to the element type. *)
Definition write (a : list Z) (i : Z) (v : Z) : list Z :=
  if i <? 0 then a else <[Z.to_nat i := v]> a.

(** [new Int32Array(n)], [new Uint8ClampedArray(n)]: zero-filled. *)
Definition zeros (n : nat) : list Z := replicate n 0.

(** The loop [for (let k = 0; k < n; k++)] visits [range n]. *)
Definition range (n : Z) : list Z := map Z.of_nat (seq 0 (Z.to_nat n)).

End TypedArray.
Import TypedArray.

(** ** JavaScript numbers with integer values *)

Module Num.

Definition num := option Z.

Definition add (a b : num) : num :=
  match a, b with Some x, Some y => Some (x + y) | _, _ => None end.

Definition sub (a b : num) : num :=
  match a, b with Some x, Some y => Some (x - y) | _, _ => None end.

(** [ToInt32] on an integer-valued number: wrap modulo [2^32] into
    [[-2^31, 2^31)]; [NaN] becomes [0]. *)
Definition wrap32 (z : Z) : Z := (z + 2 ^ 31) mod 2 ^ 32 - 2 ^ 31.

Definition toInt32 (a : num) : Z :=
  match a with Some z => wrap32 z | None => 0 end.

(** [ToUint8Clamp] on an integer-valued number; [NaN] becomes [0]. *)
Definition toUint8Clamp (a : num) : Z :=
  match a with Some z => Z.max 0 (Z.min 255 z) | None => 0 end.

End Num.

(** ** The integral image *)

(** One iteration of the inner loop of [computeIntegralImage]: the state is
    the array under construction and the running row sum. *)
Definition integralCell (data : list Z) (width y : Z)
    (st : list Z * Num.num) (x : Z) : list Z * Num.num :=
  let '(integral, sum) := st in
  let i := y * width + x in
  let sum := Num.add sum (read data (i * 4)) in
  let integral :=
    if y =? 0 then write integral i (Num.toInt32 sum)
    else write integral i
           (Num.toInt32 (Num.add (read integral ((y - 1) * width + x)) sum)) in
  (integral, sum).

(** One iteration of the outer loop: [sum] restarts at [0]. *)
Definition integralRow (data : list Z) (width : Z)
    (integral : list Z) (y : Z) : list Z :=
  fst (fold_left (integralCell data width y) (range width) (integral, Some 0)).

(** [computeIntegralImage].  The table is allocated by
    [new Int32Array(width * height)], which throws a [RangeError] for a
    negative length: this definition is the function on
    [0 <= width * height], where the allocation succeeds.  Its only caller
    passes the dimensions of a canvas, which are never negative, and every
    property below is stated for such dimensions. *)
Definition computeIntegralImage (data : list Z) (width height : Z) : list Z :=
  fold_left (integralRow data width) (range height)
    (zeros (Z.to_nat (width * height))).

(** ** Adaptive thresholding *)

(** The local mean read off the integral image for the rectangle
    [(x1,y1)-(x2,y2)], as the body of the pixel loop of
    [applyAdaptiveThreshold] computes it: [A], [B], [C] are taken as [0]
    when the corner lies left of or above the image. *)
Definition windowSum (integral : list Z) (width x1 y1 x2 y2 : Z) : Num.num :=
  let A := if (0 <? x1) && (0 <? y1)
           then read integral ((y1 - 1) * width + (x1 - 1)) else Some 0 in
  let B := if 0 <? y1 then read integral ((y1 - 1) * width + x2) else Some 0 in
  let C := if 0 <? x1 then read integral (y2 * width + (x1 - 1)) else Some 0 in
  let D := read integral (y2 * width + x2) in
  Num.sub (Num.sub (Num.add D A) B) C.

(** [sum / count], a number that need not be an integer.  In every
    iteration of the pixel loop [count] is at least [1], for every half
    window, so the quotient is never a division by zero. *)
Definition divCount (sum : Num.num) (count : Z) : option Q :=
  match sum with
  | Some s => Some (inject_Z s / inject_Z count)%Q
  | None => None
  end.

Definition windowMean (integral : list Z) (width x1 y1 x2 y2 : Z) : option Q :=
  let count := (x2 - x1 + 1) * (y2 - y1 + 1) in
  divCount (windowSum integral width x1 y1 x2 y2) count.

(** [value > (mean - constant)]; a comparison with [NaN] is false. *)
Definition aboveThreshold (value : Num.num) (mean : option Q) (constant : Z)
    : bool :=
  match value, mean with
  | Some v, Some m => negb (Qle_bool (inject_Z v) (m - inject_Z constant)%Q)
  | _, _ => false
  end.

(** The clamped window of the pixel [(x,y)]. *)
Definition window (width height halfWindow x y : Z) : Z * Z * Z * Z :=
  (Z.max (x - halfWindow) 0, Z.max (y - halfWindow) 0,
   Z.min (x + halfWindow) (width - 1), Z.min (y + halfWindow) (height - 1)).

(** The value [binary] the loop body of [applyAdaptiveThreshold] computes
    for the pixel [(x,y)]. *)
Definition binaryAt (data integral : list Z)
    (width height halfWindow constant x y : Z) : Z :=
  let '(x1, y1, x2, y2) := window width height halfWindow x y in
  let mean := windowMean integral width x1 y1 x2 y2 in
  let idx := (y * width + x) * 4 in
  let value := read data idx in
  if aboveThreshold value mean constant then 255 else 0.

(** One iteration of the inner loop of [applyAdaptiveThreshold]. *)
Definition thresholdCell (data integral : list Z)
    (width height halfWindow constant y : Z) (output : list Z) (x : Z)
    : list Z :=
  let binary := binaryAt data integral width height halfWindow constant x y in
  let idx := (y * width + x) * 4 in
  let output := write output idx binary in
  let output := write output (idx + 1) binary in
  let output := write output (idx + 2) binary in
  write output (idx + 3) 255.

Definition thresholdRow (data integral : list Z)
    (width height halfWindow constant : Z) (output : list Z) (y : Z)
    : list Z :=
  fold_left (thresholdCell data integral width height halfWindow constant y)
    (range width) output.

(** The defaults of the two optional parameters. *)
Definition default_windowSize : Z := 21.
Definition default_constant : Z := 10.

(** [applyAdaptiveThreshold]: the function overwrites [data] with [output]
    ([data.set(output)]); the embedding returns the new contents.  Like
    [computeIntegralImage], which it calls first, it is defined on
    [0 <= width * height]; for a negative product the source throws. *)
Definition applyAdaptiveThreshold (data : list Z)
    (width height windowSize constant : Z) : list Z :=
  let integral := computeIntegralImage data width height in
  let output := zeros (length data) in
  let halfWindow := windowSize / 2 in
  fold_left (thresholdRow data integral width height halfWindow constant)
    (range height) output.

(** ** Median filter *)

(** Insertion into a sorted list, and the sort it gives: the result of
    [Array.prototype.sort] with the comparator [(a, b) => a - b] on numbers. *)
Fixpoint insertSorted (v : Z) (l : list Z) : list Z :=
  match l with
  | [] => [v]
  | h :: t => if v <=? h then v :: l else h :: insertSorted v t
  end.

Definition sortNumbers (l : list Z) : list Z := fold_right insertSorted [] l.

(** [sort] moves [undefined] elements behind all others. *)
Definition sortArray (l : list (option Z)) : list (option Z) :=
  let defined := omap id l in
  map Some (sortNumbers defined) ++ replicate (length l - length defined) None.

(** The nine values pushed for the pixel [(x,y)], in the order of the two
    loops over [ky] and [kx]. *)
Definition neighbors (copy : list Z) (width x y : Z) : list (option Z) :=
  flat_map
    (fun ky => map (fun kx => read copy (((y + ky) * width + (x + kx)) * 4))
                 [-1; 0; 1])
    [-1; 0; 1].

Definition median (copy : list Z) (width x y : Z) : Num.num :=
  mjoin (sortArray (neighbors copy width x y) !! 4%nat).

Definition medianCell (copy : list Z) (width y : Z) (data : list Z) (x : Z)
    : list Z :=
  let m := Num.toUint8Clamp (median copy width x y) in
  let i := (y * width + x) * 4 in
  let data := write data i m in
  let data := write data (i + 1) m in
  write data (i + 2) m.

(** The loop [for (let k = lo; k < hi; k++)]. *)
Definition rangeFrom (lo hi : Z) : list Z := map (Z.add lo) (range (hi - lo)).

Definition applyMedianFilter (data : list Z) (width height : Z) : list Z :=
  let copy := data in
  fold_left
    (fun data y =>
       fold_left (medianCell copy width y) (rangeFrom 1 (width - 1)) data)
    (rangeFrom 1 (height - 1)) data.

(** ** Grayscale conversion *)

Module Luma.

(** A channel value as a number; [undefined] becomes [NaN]. *)
Definition ofChannel (c : option Z) : float :=
  match c with
  | Some z => PrimFloat.of_uint63 (Uint63.of_Z z)
  | None => nan
  end.

(** [0.299 * r + 0.587 * g + 0.114 * b], evaluated left to right. *)
Definition gray (r g b : float) : float :=
  (0.299 * r + 0.587 * g + 0.114 * b)%float.

(** The largest integer [k <= n] with [k <= f], or [0]. *)
Fixpoint floorUpTo (n : nat) (f : float) : Z :=
  match n with
  | O => 0
  | S k =>
      if (PrimFloat.of_uint63 (Uint63.of_Z (Z.of_nat n)) <=? f)%float
      then Z.of_nat n
      else floorUpTo k f
  end.

(** [ToUint8Clamp]: [NaN] gives [0]; the number is clamped to [[0,255]]
    and rounded to the nearest integer, a tie going to the even one. *)
Definition toUint8Clamp (f : float) : Z :=
  if PrimFloat.is_nan f then 0
  else if (f <=? 0)%float then 0
  else if (255 <=? f)%float then 255
  else
    let fl := floorUpTo 254 f in
    let half := (PrimFloat.of_uint63 (Uint63.of_Z fl) + 0.5)%float in
    if (half <? f)%float then fl + 1
    else if (f <? half)%float then fl
    else if Z.even fl then fl
    else fl + 1.

End Luma.

(** One iteration of the grayscale loop, at the channel index [i]. *)
Definition grayscalePixel (data : list Z) (i : Z) : list Z :=
  let r := Luma.ofChannel (read data i) in
  let g := Luma.ofChannel (read data (i + 1)) in
  let b := Luma.ofChannel (read data (i + 2)) in
  let gray := Luma.toUint8Clamp (Luma.gray r g b) in
  let data := write data (i + 2) gray in
  let data := write data (i + 1) gray in
  write data i gray.

(** The loop [for (let i = 0; i < data.length; i += 4)]. *)
Definition pixelOffsets (len : nat) : list Z :=
  map (fun k => 4 * k) (range ((Z.of_nat len + 3) / 4)).

Definition grayscaleLoop (data : list Z) : list Z :=
  fold_left grayscalePixel (pixelOffsets (length data)) data.

(** ** The orchestrator [preprocessImage] *)

(** A field of the options object: absent, present with the value
    [undefined], or present with a boolean. *)
Inductive field : Type :=
  | Missing
  | Undefined
  | Bool (b : bool).

(** An options object: the four properties the interface
    [PreprocessOptions] declares, and whatever other own properties the
    object carries (a window size, say), with the numbers they hold.  An
    object may always carry such properties at run time, and the type
    checker accepts them on any object that is not a fresh literal. *)
Record PreprocessOptions : Type := {
  grayscale : field;
  binarize : field;
  denoise : field;
  upscale : field;
  others : list (string * Z)
}.

(** The default argument [options = {}]. *)
Definition emptyOptions : PreprocessOptions :=
  {| grayscale := Missing; binarize := Missing;
     denoise := Missing; upscale := Missing; others := [] |}.

(** The effect of [{ key: dflt, ...options }] on one key: a property of
    [options] wins whenever it is present. *)
Definition spread (dflt : bool) (f : field) : field :=
  match f with
  | Missing => Bool dflt
  | _ => f
  end.

(** [{ grayscale: true, binarize: true, denoise: false, upscale: true,
    ...options }]: the spread copies every own property of [options], the
    undeclared ones included. *)
Definition resolveConfig (options : option PreprocessOptions)
    : PreprocessOptions :=
  let options := default emptyOptions options in
  {| grayscale := spread true (grayscale options);
     binarize := spread true (binarize options);
     denoise := spread false (denoise options);
     upscale := spread true (upscale options);
     others := others options |}.

(** What an [if] makes of a field. *)
Definition truthy (f : field) : bool :=
  match f with
  | Bool true => true
  | _ => false
  end.

(** The canvas size: the upscaling step. *)
Definition canvasSize (config : PreprocessOptions) (width height : Z) : Z * Z :=
  if truthy (upscale config) && ((width <? 1500) || (height <? 1500))
  then (let scale := 2 in (width * scale, height * scale))
  else (width, height).

(** The guards of the three pixel stages. *)
Definition runsGrayscale (config : PreprocessOptions) : bool :=
  truthy (grayscale config) || truthy (binarize config).
Definition runsDenoise (config : PreprocessOptions) : bool :=
  truthy (denoise config).
Definition runsBinarize (config : PreprocessOptions) : bool :=
  truthy (binarize config).

(** The window and constant the orchestrator passes to the thresholder. *)
Definition pipeline_windowSize : Z := 41.
Definition pipeline_constant : Z := 15.

(** The pixel work between [getImageData] and [putImageData]. *)
Definition processPixels (config : PreprocessOptions)
    (data : list Z) (width height : Z) : list Z :=
  let data := if runsGrayscale config then grayscaleLoop data else data in
  let data := if runsDenoise config
              then applyMedianFilter data width height else data in
  if runsBinarize config
  then applyAdaptiveThreshold data width height
         pipeline_windowSize pipeline_constant
  else data.

(** The browser capabilities the orchestrator relies on.  An uploaded file
    is its bytes. *)
Record Image : Type := {
  img_width : Z;
  img_height : Z
}.

Record Browser : Type := {
  (** the object URL created for a file *)
  createObjectURL : list Z -> string;
  (** loading the file into an [Image]: [None] when [onerror] fires *)
  loadImage : list Z -> option Image;
  (** whether [canvas.getContext('2d')] yields a context *)
  getContext2d : Z -> Z -> bool;
  (** the RGBA data read back after drawing the image at a given size *)
  drawAndRead : list Z -> Z -> Z -> list Z;
  (** [canvas.toDataURL('image/png')] for the final pixels: [None] when the
      call throws *)
  toDataURL : Z -> Z -> list Z -> option string
}.

(** The state a promise ends in.  An exception thrown inside the [onload]
    handler reaches neither [resolve] nor [reject]: the promise stays
    pending. *)
Inductive Promise : Type :=
  | Resolved (value : string)
  | Rejected
  | Pending.

Definition preprocessImage (br : Browser) (imageFile : list Z)
    (options : option PreprocessOptions) : Promise :=
  let config := resolveConfig options in
  let url := createObjectURL br imageFile in
  match loadImage br imageFile with
  | None => Rejected
  | Some img =>
      let '(width, height) := canvasSize config (img_width img) (img_height img) in
      if negb (getContext2d br width height) then Resolved url
      else
        let data := drawAndRead br imageFile width height in
        let data := processPixels config data width height in
        match toDataURL br width height data with
        | Some processedUrl => Resolved processedUrl
        | None => Pending
        end
  end.

(** ** The caller [handleFile] *)

(** What is handed to the recognition engine. *)
Inductive OCRInput : Type :=
  | OriginalFile (file : list Z)
  | ProcessedUrl (url : string).

(** The options [handleFile] passes. *)
Definition handleFile_options : PreprocessOptions :=
  {| grayscale := Bool true; binarize := Bool true;
     denoise := Missing; upscale := Missing; others := [] |}.

(** The argument of [performOCR]; [None] when the call is never reached
    because the awaited promise does not settle. *)
Definition handleFile (br : Browser) (usePreprocessing : bool)
    (file : list Z) : option OCRInput :=
  if usePreprocessing then
    match preprocessImage br file (Some handleFile_options) with
    | Resolved processed => Some (ProcessedUrl processed)
    | Rejected => Some (OriginalFile file)
    | Pending => None
    end
  else Some (OriginalFile file).

(** ** The upload proxy: [POST /api/upload-lyrics]

    Strings are sequences of bytes (UTF-8), so that [Buffer.byteLength] is
    the length of the string.  What the handler obtains from its
    surroundings (the environment variable, the [URL] and [JSON] parsers,
    the network, the response constructor) is a field of [ServerEnv]. *)

Local Open Scope string_scope.

#[local] Unset Elimination Schemes.

(** A value as [JSON.parse] or [request.json()] delivers it; the fields of
    an object are listed once each. *)
Inductive json : Type :=
  | JNull
  | JBool (b : bool)
  | JNumber (x : float)
  | JString (s : string)
  | JArray (items : list json)
  | JObject (fields : list (string * json)).

#[local] Set Elimination Schemes.

(** A thrown value: an [Error] with its message, or something else. *)
Inductive thrown : Type :=
  | ErrorObject (message : string)
  | OtherValue.

(** The outcome of reading a property: a [TypeError] on [null], [undefined]
    when there is no such property, or its value. *)
Inductive access : Type :=
  | Throws
  | Absent
  | Found (v : json).

Fixpoint lookupField (key : string) (fields : list (string * json))
    : option json :=
  match fields with
  | [] => None
  | (k, v) :: rest => if String.eqb k key then Some v else lookupField key rest
  end.

(** [body.text] *)
Definition getText (body : json) : access :=
  match body with
  | JNull => Throws
  | JObject fields =>
      match lookupField "text" fields with
      | Some v => Found v
      | None => Absent
      end
  | _ => Absent
  end.

(** What [!v] negates. *)
Definition truthyJson (v : json) : bool :=
  match v with
  | JNull => false
  | JBool b => b
  | JNumber x => negb ((x =? 0)%float || PrimFloat.is_nan x)
  | JString s => negb (String.eqb s "")
  | JArray _ | JObject _ => true
  end.

Definition isString (v : json) : bool :=
  match v with
  | JString _ => true
  | _ => false
  end.

(** [!body.text || typeof body.text !== 'string'], once [body.text] has been
    read. *)
Definition textMissing (text : option json) : bool :=
  match text with
  | None => true
  | Some v => negb (truthyJson v) || negb (isString v)
  end.

Record URL : Type := {
  url_hostname : string;
  url_port : string;
  url_pathname : string;
  url_search : string
}.

(** [url.port || 80]: the port as the URL spells it, or the number 80. *)
Inductive port : Type :=
  | PortText (p : string)
  | PortNumber (n : Z).

Record RequestOptions : Type := {
  opt_hostname : string;
  opt_port : port;
  opt_path : string;
  opt_method : string;
  opt_contentType : string;
  opt_contentLength : Z;
  opt_userAgent : string;
  opt_family : Z
}.

(** What becomes of a request handed to [http.request]: the call itself
    throws, the response ends after some chunks, the connection fails, or
    the 30 second time-out fires. *)
Inductive NetworkOutcome : Type :=
  | RequestThrows (e : thrown)
  | ResponseEnd (statusCode : option Z) (chunks : list string)
  | ConnectionError (message : string)
  | Timeout.

Record ServerEnv : Type := {
  (** [process.env.REMOTE_BACKEND_URL] *)
  backendUrl : option string;
  (** [new URL(s)]: the parsed URL, or what it throws *)
  parseURL : string -> thrown + URL;
  (** [JSON.stringify] *)
  stringify : json -> string;
  (** [JSON.parse]: [None] when it throws *)
  parseJSON : string -> option json;
  (** the network *)
  network : RequestOptions -> string -> NetworkOutcome;
  (** whether [NextResponse.json(data, { status })] accepts the status, or
      what it throws *)
  responseStatus : Z -> option thrown;
  (** the [TypeError] of reading a property of [null] *)
  nullAccess : thrown
}.

(** The value a settled promise of [forwardToRemoteBackend] carries. *)
Inductive Forwarded : Type :=
  | ForwardResolved (status : Z) (data : json)
  | ForwardRejected (e : thrown).

(** A request written to the network: its options and its body. *)
Record Sent : Type := {
  sent_options : RequestOptions;
  sent_body : string
}.

(** The handler of the response's [end] event. *)
Definition onEnd (env : ServerEnv) (statusCode : option Z) (data : string)
    : Forwarded :=
  let status := match statusCode with
                | Some 0%Z | None => 200%Z
                | Some s => s
                end in
  if String.eqb data "" then ForwardResolved status (JObject [])
  else
    match parseJSON env data with
    | Some parsedData => ForwardResolved status parsedData
    | None =>
        ForwardResolved status
          (JObject [("message",
                     JString (if String.eqb data "" then "Success" else data))])
    end.

(** [forwardToRemoteBackend]: the requests it wrote and how its promise
    settled. *)
Definition forwardToRemoteBackend (env : ServerEnv) (urlString : string)
    (payload : json) : list Sent * Forwarded :=
  match parseURL env urlString with
  | inl e => ([], ForwardRejected e)
  | inr url =>
      let postData := stringify env payload in
      let options :=
        {| opt_hostname := url_hostname url;
           opt_port := if String.eqb (url_port url) ""
                       then PortNumber 80 else PortText (url_port url);
           opt_path := url_pathname url ++ url_search url;
           opt_method := "POST";
           opt_contentType := "application/json";
           opt_contentLength := Z.of_nat (String.length postData);
           opt_userAgent := "NextJS-OCR-Proxy/1.0";
           opt_family := 0 |} in
      match network env options postData with
      | RequestThrows e => ([], ForwardRejected e)
      | ResponseEnd statusCode chunks =>
          ([ {| sent_options := options; sent_body := postData |} ],
           onEnd env statusCode (String.concat "" chunks))
      | ConnectionError message =>
          ([ {| sent_options := options; sent_body := postData |} ],
           ForwardRejected
             (ErrorObject ("Failed to connect to remote backend: " ++ message)))
      | Timeout =>
          ([ {| sent_options := options; sent_body := postData |} ],
           ForwardRejected (ErrorObject "Request to remote backend timed out"))
      end
  end.

Record Response : Type := {
  status : Z;
  body : json
}.

(** The response of the outer [catch]. *)
Definition internalError (e : thrown) : Response :=
  {| status := 500;
     body := JObject
       [("error", JString "Internal server error");
        ("message", JString match e with
                            | ErrorObject message => message
                            | OtherValue => "Unknown error"
                            end)] |}.

Definition errorResponse (code : Z) (message : string) : Response :=
  {| status := code; body := JObject [("error", JString message)] |}.

(** [POST]: the requests written to the backend and the response returned.
    [request] is the outcome of [request.json()], [None] when it throws. *)
Definition POST (env : ServerEnv) (request : option json)
    : list Sent * Response :=
  match request with
  | None => ([], errorResponse 400 "Invalid JSON body")
  | Some body =>
      match getText body with
      | Throws => ([], internalError (nullAccess env))
      | access_text =>
          let text := match access_text with Found v => Some v | _ => None end in
          if textMissing text
          then ([], errorResponse 400 "Missing required field: text (string)")
          else
            match backendUrl env with
            | None => ([], errorResponse 500 "Backend configuration error")
            | Some url =>
                if String.eqb url ""
                then ([], errorResponse 500 "Backend configuration error")
                else
                  let '(sent, remoteResponse) :=
                    forwardToRemoteBackend env url body in
                  match remoteResponse with
                  | ForwardRejected e => (sent, internalError e)
                  | ForwardResolved status data =>
                      match responseStatus env status with
                      | Some e => (sent, internalError e)
                      | None => (sent, {| status := status; body := data |})
                      end
                  end
            end
      end
  end.

(** [GET] *)
Definition GET : Response := errorResponse 405 "Method not allowed. Use POST.".

Local Close Scope string_scope.

(** ** The page: saving the text ([handleSaveToServer]) *)

Local Open Scope string_scope.

Inductive SaveStatus : Type :=
  | SaveIdle
  | SaveSuccess
  | SaveError.

Record SaveState : Type := {
  isSaving : bool;
  saveStatus : SaveStatus
}.

(** How [fetch] settles: with a response, of which only the status matters
    here, or with a rejection. *)
Inductive FetchOutcome : Type :=
  | FetchResponse (code : Z)
  | FetchFails.

(** A number as it arrives after [JSON.stringify]: [NaN] and the infinities
    are written as [null]. *)
Definition jsonNumber (x : float) : json :=
  if PrimFloat.is_nan x || PrimFloat.is_infinity x then JNull else JNumber x.

(** The request body, as the JSON value the server parses. *)
Definition saveBody (editableText : string) (confidence : float)
    (timestamp : string) : json :=
  JObject
    [("text", JString editableText);
     ("metadata",
      JObject [("confidence", jsonNumber confidence);
               ("timestamp", JString timestamp);
               ("source", JString "web-client")])].

(** [response.ok] *)
Definition responseOk (code : Z) : bool := (200 <=? code)%Z && (code <=? 299)%Z.

(** [handleSaveToServer]: the bodies posted to [/api/upload-lyrics], the
    state when the function returns, and the delay in milliseconds after
    which a timer sets the save status back to idle. *)
Definition handleSaveToServer (fetch : json -> FetchOutcome)
    (state : SaveState) (editableText : string) (confidence : float)
    (timestamp : string) : list json * SaveState * option Z :=
  if String.eqb editableText "" then ([], state, None)
  else
    let requestBody := saveBody editableText confidence timestamp in
    match fetch requestBody with
    | FetchResponse code =>
        if responseOk code
        then ([requestBody],
              {| isSaving := false; saveStatus := SaveSuccess |}, Some 3000%Z)
        else ([requestBody],
              {| isSaving := false; saveStatus := SaveError |}, Some 5000%Z)
    | FetchFails =>
        ([requestBody],
         {| isSaving := false; saveStatus := SaveError |}, Some 5000%Z)
    end.

(** [fetch] answered by the proxy of this repository. *)
Definition fetchViaProxy (env : ServerEnv) (requestBody : json) : FetchOutcome :=
  FetchResponse (status (snd (POST env (Some requestBody)))).

(** ** The recognition hook ([useOCR]) *)

Inductive OCRStatus : Type :=
  | Idle
  | Initializing
  | Recognizing
  | Completed
  | Failed.

Record OCRState : Type := {
  ocr_progress : float;
  ocr_status : OCRStatus;
  ocr_statusMessage : string;
  ocr_result : option string;
  ocr_confidence : float
}.

(** A message passed to the [logger] callback. *)
Record LoggerMessage : Type := {
  m_status : string;
  m_progress : float
}.

(** What the recognition engine does during one call: the messages it logs
    while the worker is created and whether the creation succeeds, the
    messages it logs while recognizing and the text and confidence it
    returns, if any, and whether terminating the worker succeeds.
    [percent p] is the text of [Math.round(p * 100)]. *)
Record Engine : Type := {
  percent : float -> string;
  createMessages : list LoggerMessage;
  created : bool;
  recognizeMessages : list LoggerMessage;
  recognized : option (string * float);
  terminated : bool
}.

(** The [logger] callback. *)
Definition logger (engine : Engine) (st : OCRState) (m : LoggerMessage)
    : OCRState :=
  if String.eqb (m_status m) "recognizing text"
  then {| ocr_progress := m_progress m;
          ocr_status := ocr_status st;
          ocr_statusMessage :=
            "Recognizing... " ++ percent engine (m_progress m) ++ "%";
          ocr_result := ocr_result st;
          ocr_confidence := ocr_confidence st |}
  else {| ocr_progress := ocr_progress st;
          ocr_status := ocr_status st;
          ocr_statusMessage := m_status m;
          ocr_result := ocr_result st;
          ocr_confidence := ocr_confidence st |}.

(** The [catch] block. *)
Definition ocrFailed (st : OCRState) : OCRState :=
  {| ocr_progress := ocr_progress st;
     ocr_status := Failed;
     ocr_statusMessage := "Error occurred during OCR processing.";
     ocr_result := ocr_result st;
     ocr_confidence := ocr_confidence st |}.

(** What one call of [performOCR] leaves behind: the state, the value it
    returns ([None] for [undefined]), whether a worker was created and
    whether [terminate] was called on it. *)
Record OCRRun : Type := {
  run_state : OCRState;
  run_returned : option (string * float);
  run_workerCreated : bool;
  run_terminateCalled : bool
}.

Definition performOCR (engine : Engine) (st : OCRState) : OCRRun :=
  let st := {| ocr_progress := 0;
               ocr_status := Initializing;
               ocr_statusMessage := "Initializing Tesseract...";
               ocr_result := None;
               ocr_confidence := ocr_confidence st |} in
  let st := fold_left (logger engine) (createMessages engine) st in
  if negb (created engine)
  then {| run_state := ocrFailed st; run_returned := None;
          run_workerCreated := false; run_terminateCalled := false |}
  else
    let st := {| ocr_progress := ocr_progress st;
                 ocr_status := Recognizing;
                 ocr_statusMessage := ocr_statusMessage st;
                 ocr_result := ocr_result st;
                 ocr_confidence := ocr_confidence st |} in
    let st := fold_left (logger engine) (recognizeMessages engine) st in
    match recognized engine with
    | None => {| run_state := ocrFailed st; run_returned := None;
                 run_workerCreated := true; run_terminateCalled := false |}
    | Some (text, confidence) =>
        let st := {| ocr_progress := ocr_progress st;
                     ocr_status := Completed;
                     ocr_statusMessage := "Done!";
                     ocr_result := Some text;
                     ocr_confidence := confidence |} in
        if terminated engine
        then {| run_state := st; run_returned := Some (text, confidence);
                run_workerCreated := true; run_terminateCalled := true |}
        else {| run_state := ocrFailed st; run_returned := None;
                run_workerCreated := true; run_terminateCalled := true |}
    end.

Local Close Scope string_scope.

(** ** The page: previews and object URLs ([handleFile], [handleClear]) *)

Local Open Scope string_scope.

(** A URL of the page: an object URL made by [URL.createObjectURL], numbered
    in the order of creation, or a data URL made by [canvas.toDataURL].
    Object URLs begin with [blob:] and data URLs with [data:]. *)
Inductive PageUrl : Type :=
  | ObjectUrl (n : nat)
  | DataUrl (s : string).

(** [u.startsWith('data:')] *)
Definition startsWithData (u : PageUrl) : bool :=
  match u with
  | DataUrl _ => true
  | ObjectUrl _ => false
  end.

(** The calls of [URL.createObjectURL] and [URL.revokeObjectURL], in
    order. *)
Inductive UrlEvent : Type :=
  | Create (n : nat)
  | Revoke (u : PageUrl).

Inductive PagePromise : Type :=
  | PageResolved (u : PageUrl)
  | PageRejected
  | PagePending.

(** [preprocessImage] with its object URL accounted for: [next] object URLs
    exist before the call; the result is how the promise ends and the calls
    made. *)
Definition preprocessImageUrls (br : Browser) (imageFile : list Z)
    (options : option PreprocessOptions) (next : nat)
    : PagePromise * list UrlEvent :=
  let config := resolveConfig options in
  let url := ObjectUrl next in
  match loadImage br imageFile with
  | None => (PageRejected, [Create next; Revoke url])
  | Some img =>
      let '(width, height) := canvasSize config (img_width img) (img_height img) in
      if negb (getContext2d br width height) then (PageResolved url, [Create next])
      else
        let data := drawAndRead br imageFile width height in
        let data := processPixels config data width height in
        match toDataURL br width height data with
        | Some processedUrl =>
            (PageResolved (DataUrl processedUrl), [Create next; Revoke url])
        | None => (PagePending, [Create next])
        end
  end.

(** The part of the state of the page that [handleFile] and [handleClear]
    set. *)
Record Home : Type := {
  image : option (list Z);
  preview : option PageUrl;
  editableText : string
}.

(** The first argument of [performOCR]. *)
Inductive OcrInput : Type :=
  | InputFile (file : list Z)
  | InputUrl (u : PageUrl).

Record FileRun : Type := {
  file_home : Home;
  file_events : list UrlEvent;
  (** the arguments of the call of [performOCR], if it is reached *)
  file_ocr : option (OcrInput * string)
}.

Definition handleFilePage (br : Browser) (useEnglish usePreprocessing : bool)
    (home : Home) (file : list Z) (next : nat) : FileRun :=
  let revoked := match preview home with
                 | Some p => [Revoke p]
                 | None => []
                 end in
  let previewUrl := ObjectUrl next in
  let langs := if useEnglish then "amh+eng" else "amh" in
  let home := {| image := Some file; preview := Some previewUrl;
                 editableText := "" |} in
  if usePreprocessing then
    let '(promise, events) :=
      preprocessImageUrls br file (Some handleFile_options) (S next) in
    match promise with
    | PageResolved processed =>
        {| file_home := {| image := image home; preview := Some processed;
                           editableText := editableText home |};
           file_events := revoked ++ [Create next] ++ events;
           file_ocr := Some (InputUrl processed, langs) |}
    | PageRejected =>
        {| file_home := home;
           file_events := revoked ++ [Create next] ++ events;
           file_ocr := Some (InputFile file, langs) |}
    | PagePending =>
        {| file_home := home;
           file_events := revoked ++ [Create next] ++ events;
           file_ocr := None |}
    end
  else
    {| file_home := home;
       file_events := revoked ++ [Create next];
       file_ocr := Some (InputFile file, langs) |}.

Definition handleClearPage (home : Home) : Home * list UrlEvent :=
  ({| image := None; preview := None; editableText := "" |},
   match preview home with
   | Some p => if negb (startsWithData p) then [Revoke p] else []
   | None => []
   end).

Local Close Scope string_scope.

(** ** Reference notions the properties are stated with *)

(** [f 0 + f 1 + ... + f (n-1)]. *)
Fixpoint bigsum (f : Z -> Z) (n : nat) : Z :=
  match n with
  | O => 0
  | S k => bigsum f k + f (Z.of_nat k)
  end.

(** The single-channel intensity of the pixel [(x,y)]: its first channel. *)
Definition intensity (data : list Z) (width x y : Z) : Z :=
  default 0 (read data ((y * width + x) * 4)).

(** Brute-force sums over a row segment and over a rectangle, corners
    included. *)
Definition rowSum (data : list Z) (width x1 x2 y : Z) : Z :=
  bigsum (fun dx => intensity data width (x1 + dx) y) (Z.to_nat (x2 - x1 + 1)).

Definition rectSum (data : list Z) (width x1 y1 x2 y2 : Z) : Z :=
  bigsum (fun dy => rowSum data width x1 x2 (y1 + dy)) (Z.to_nat (y2 - y1 + 1)).

(** A pixel buffer of [width * height] RGBA pixels with channels in
    [[0,255]]. *)
Definition wellFormed (data : list Z) (width height : Z) : Prop :=
  0 <= width /\ 0 <= height /\ Z.of_nat (length data) = width * height * 4.

Definition bytes (data : list Z) : Prop :=
  Forall (fun v => 0 <= v <= 255) data.

(** The channel [c] of the pixel [(x,y)]. *)
Definition channel (data : list Z) (width x y c : Z) : option Z :=
  read data ((y * width + x) * 4 + c).

(** The table [computeIntegralImage] is after: the sum over
    [(0,0)-(x,y)], as a 32-bit array element holds it. *)
Definition prefixCell (data : list Z) (width x y : Z) : Z :=
  Num.wrap32 (rectSum data width 0 0 x y).

(** Loop invariants of [computeIntegralImage]: before the iteration [(x,y)]
    of the inner loop, and before the iteration [y] of the outer loop. *)
Definition integralCellInv (data : list Z) (width height y x : Z)
    (st : list Z * Num.num) : Prop :=
  length (fst st) = Z.to_nat (width * height) /\
  snd st = Some (rowSum data width 0 (x - 1) y) /\
  forall x' y', 0 <= x' < width -> 0 <= y' ->
    y' < y \/ (y' = y /\ x' < x) ->
    read (fst st) (y' * width + x') = Some (prefixCell data width x' y').

Definition integralRowInv (data : list Z) (width height y : Z)
    (integral : list Z) : Prop :=
  length integral = Z.to_nat (width * height) /\
  forall x' y', 0 <= x' < width -> 0 <= y' < y ->
    read integral (y' * width + x') = Some (prefixCell data width x' y').

(** The buffer whose channels all hold [v]. *)
Definition uniformBuffer (v width height : Z) : list Z :=
  replicate (Z.to_nat (width * height * 4)) v.

(** Invariants of a loop nest over the pixels [xlo <= x < xhi],
    [ylo <= y < yhi] whose body rewrites the four channels of its own pixel
    by [W x y c] and nothing else: before the iteration [(x,y)], and before
    the row [y]. *)
Definition pixelCellInv (W : Z -> Z -> Z -> option Z -> option Z)
    (init : list Z) (width xlo xhi ylo y x : Z) (st : list Z) : Prop :=
  length st = length init /\
  (forall x' y' c, xlo <= x' < xhi -> ylo <= y' ->
     y' < y \/ (y' = y /\ x' < x) -> 0 <= c < 4 ->
     read st ((y' * width + x') * 4 + c)
     = W x' y' c (read init ((y' * width + x') * 4 + c))) /\
  (forall j,
     (forall x' y' c, xlo <= x' < xhi -> ylo <= y' ->
        y' < y \/ (y' = y /\ x' < x) -> 0 <= c < 4 ->
        j <> (y' * width + x') * 4 + c) ->
     read st j = read init j).

Definition pixelRowInv (W : Z -> Z -> Z -> option Z -> option Z)
    (init : list Z) (width xlo xhi ylo y : Z) (st : list Z) : Prop :=
  length st = length init /\
  (forall x' y' c, xlo <= x' < xhi -> ylo <= y' < y -> 0 <= c < 4 ->
     read st ((y' * width + x') * 4 + c)
     = W x' y' c (read init ((y' * width + x') * 4 + c))) /\
  (forall j,
     (forall x' y' c, xlo <= x' < xhi -> ylo <= y' < y -> 0 <= c < 4 ->
        j <> (y' * width + x') * 4 + c) ->
     read st j = read init j).

(** What the thresholding loop leaves in the channel [c] of the pixel
    [(x,y)], given the previous content of that array element. *)
Definition thresholdWrite (data integral : list Z)
    (width height halfWindow constant x y c : Z) (old : option Z) : option Z :=
  (fun _ => if c <? 3
            then binaryAt data integral width height halfWindow constant x y
            else 255) <$> old.

(** A blank white page of 3000 by 3000 pixels. *)
Definition whitePage : list Z := uniformBuffer 255 3000 3000.

(** [n] pixels of one colour. *)
Definition solid (r g b a : Z) (n : nat) : list Z :=
  List.concat (replicate n [r; g; b; a]).

(** The 3 by 3 uniform gray buffer of intensity 128. *)
Definition gray128 : list Z := solid 128 128 128 255 9.

(** The byte the grayscale loop stores for the pixel number [p] of [data]:
    its luminance, converted as a [Uint8ClampedArray] element is. *)
Definition luminanceByte (data : list Z) (p : Z) : Z :=
  Luma.toUint8Clamp
    (Luma.gray (Luma.ofChannel (read data (4 * p)))
               (Luma.ofChannel (read data (4 * p + 1)))
               (Luma.ofChannel (read data (4 * p + 2)))).

(** Invariant of the grayscale loop before the pixel number [k]. *)
Definition grayscaleInv (data : list Z) (k : Z) (st : list Z) : Prop :=
  length st = length data /\
  (forall p c, 0 <= p < k -> 0 <= c < 3 ->
     read st (4 * p + c) = Some (luminanceByte data p)) /\
  (forall j, (forall p c, 0 <= p < k -> 0 <= c < 3 -> j <> 4 * p + c) ->
     read st j = read data j).

(** The nine intensities of the 3 by 3 neighbourhood of [(x,y)], row by
    row. *)
Definition neighborhood (data : list Z) (width x y : Z) : list Z :=
  flat_map
    (fun ky => map (fun kx => intensity data width (x + kx) (y + ky)) [-1; 0; 1])
    [-1; 0; 1].

(** What the median loop leaves in the channel [c] of the interior pixel
    [(x,y)], given the previous content of that array element. *)
Definition medianWrite (copy : list Z) (width x y c : Z) (old : option Z)
    : option Z :=
  if c <? 3
  then (fun _ => Num.toUint8Clamp (median copy width x y)) <$> old
  else old.

(** A 3 by 3 buffer with one bright pixel in the middle. *)
Definition speckle : list Z :=
  [9;1;1;1;  8;1;1;1;    7;1;1;1;
   6;1;1;1;  200;2;3;4;  4;1;1;1;
   3;1;1;1;  2;1;1;1;    1;1;1;1].





(** An option whose default is [true] is on when it is left out or given as
    [true]; given as [false] or as [undefined] it is off. *)
Definition onByDefault (f : field) : bool :=
  match f with
  | Missing | Bool true => true
  | Undefined | Bool false => false
  end.

(** Browsers for a 1 by 1 image: one that cannot load the file, one that
    has no drawing context, two whose canvas cannot be serialized (the call
    throws, or it returns the empty data URL by which browsers report a
    failed serialization), and one where everything works. *)
Definition onePixel (file : list Z) (width height : Z) : list Z :=
  uniformBuffer 128 width height.

Definition brokenFileBrowser : Browser :=
  {| createObjectURL := fun _ => "blob:original"%string;
     loadImage := fun _ => None;
     getContext2d := fun _ _ => true;
     drawAndRead := onePixel;
     toDataURL := fun _ _ _ => Some "data:image/png;base64,AAAA"%string |}.

Definition brokenEncoderBrowser : Browser :=
  {| createObjectURL := fun _ => "blob:original"%string;
     loadImage := fun _ => Some {| img_width := 1; img_height := 1 |};
     getContext2d := fun _ _ => true;
     drawAndRead := onePixel;
     toDataURL := fun _ _ _ => None |}.

Definition emptyEncoderBrowser : Browser :=
  {| createObjectURL := fun _ => "blob:original"%string;
     loadImage := fun _ => Some {| img_width := 1; img_height := 1 |};
     getContext2d := fun _ _ => true;
     drawAndRead := onePixel;
     toDataURL := fun _ _ _ => Some "data:,"%string |}.

Definition noContextBrowser : Browser :=
  {| createObjectURL := fun _ => "blob:original"%string;
     loadImage := fun _ => Some {| img_width := 1; img_height := 1 |};
     getContext2d := fun _ _ => false;
     drawAndRead := onePixel;
     toDataURL := fun _ _ _ => Some "data:image/png;base64,AAAA"%string |}.

Definition workingBrowser : Browser :=
  {| createObjectURL := fun _ => "blob:original"%string;
     loadImage := fun _ => Some {| img_width := 1; img_height := 1 |};
     getContext2d := fun _ _ => true;
     drawAndRead := onePixel;
     toDataURL := fun _ _ _ => Some "data:image/png;base64,AAAA"%string |}.

(** A 3 by 3 page: white paper with a pale cyan pixel in the first corner
    and a dark dot in the middle. *)
Definition paper : list Z :=
  [200;255;255;255;  250;250;250;255;  250;250;250;255;
   250;250;250;255;  20;20;20;255;     250;250;250;255;
   250;250;250;255;  250;250;250;255;  250;250;250;255].

(** A browser that draws every file as that page and whose encoder spells
    the first channel of every pixel: [B] for 0, [W] for 255, [g] for
    anything between. *)
Fixpoint spellPixels (data : list Z) : string :=
  match data with
  | r :: _ :: _ :: _ :: rest =>
      String.append
        (if (r =? 0)%Z then "B"%string
         else if (r =? 255)%Z then "W"%string else "g"%string)
        (spellPixels rest)
  | _ => EmptyString
  end.

Definition paperBrowser : Browser :=
  {| createObjectURL := fun _ => "blob:original"%string;
     loadImage := fun _ => Some {| img_width := 3; img_height := 3 |};
     getContext2d := fun _ _ => true;
     drawAndRead := fun _ _ _ => paper;
     toDataURL := fun _ _ data =>
       Some (String.append "data:"%string (spellPixels data)) |}.

(** ** Further notions for the properties of the pixel stages *)

(** The buffer the orchestrator has after its first two stages, before it
    decides whether to binarize. *)
Definition beforeThreshold (config : PreprocessOptions)
    (data : list Z) (width height : Z) : list Z :=
  let data := if runsGrayscale config then grayscaleLoop data else data in
  if runsDenoise config then applyMedianFilter data width height else data.

(** ** Example surroundings of the upload proxy *)

Local Open Scope string_scope.

Definition exampleUrl : URL :=
  {| url_hostname := "[2001:db8::1]"; url_port := "";
     url_pathname := "/lyrics"; url_search := "?v=1" |}.

(** A backend that answers every request with the status 201 and, in two
    chunks, a text that parses as JSON. *)
Definition backendOK : ServerEnv :=
  {| backendUrl := Some "http://[2001:db8::1]/lyrics?v=1";
     parseURL := fun _ => inr exampleUrl;
     stringify := fun _ => "serialized body";
     parseJSON := fun s => if String.eqb s "saved"
                           then Some (JObject [("success", JBool true)])
                           else None;
     network := fun _ _ => ResponseEnd (Some 201%Z) ["sa"; "ved"];
     responseStatus := fun _ => None;
     nullAccess := ErrorObject "Cannot read properties of null" |}.

(** The same surroundings with a backend that cannot be reached. *)
Definition backendDown : ServerEnv :=
  {| backendUrl := backendUrl backendOK;
     parseURL := parseURL backendOK;
     stringify := stringify backendOK;
     parseJSON := parseJSON backendOK;
     network := fun _ _ => ConnectionError "connect ECONNREFUSED";
     responseStatus := responseStatus backendOK;
     nullAccess := nullAccess backendOK |}.

Definition lyricsBody : json :=
  JObject [("text", JString "abc"); ("metadata", JObject [])].

Local Close Scope string_scope.

(** ** Example surroundings of the page *)

Local Open Scope string_scope.

(** The proxy without a configured backend. *)
Definition backendUnset : ServerEnv :=
  {| backendUrl := None;
     parseURL := parseURL backendOK;
     stringify := stringify backendOK;
     parseJSON := parseJSON backendOK;
     network := network backendOK;
     responseStatus := responseStatus backendOK;
     nullAccess := nullAccess backendOK |}.

Definition idleOCR : OCRState :=
  {| ocr_progress := 0; ocr_status := Idle; ocr_statusMessage := "";
     ocr_result := None; ocr_confidence := 0 |}.

(** The state a successful earlier recognition has left. *)
Definition earlierOCR : OCRState :=
  {| ocr_progress := 1; ocr_status := Completed; ocr_statusMessage := "Done!";
     ocr_result := Some "earlier text"; ocr_confidence := 87.5 |}.

(** An engine whose worker starts and then fails to recognize. *)
Definition failingEngine : Engine :=
  {| percent := fun _ => "50";
     createMessages := [ {| m_status := "loading tesseract core";
                            m_progress := 1 |} ];
     created := true;
     recognizeMessages := [ {| m_status := "recognizing text";
                               m_progress := 0.5 |} ];
     recognized := None;
     terminated := true |}.

(** An engine that recognizes a text but cannot terminate its worker. *)
Definition stuckEngine : Engine :=
  {| percent := fun _ => "100";
     createMessages := [];
     created := true;
     recognizeMessages := [ {| m_status := "recognizing text";
                               m_progress := 1 |} ];
     recognized := Some ("text", 91.5%float);
     terminated := false |}.

Local Close Scope string_scope.

(** ** Accounting for object URLs *)

(** The object URLs a sequence of calls created and did not revoke. *)
Definition isRevoked (n : nat) (events : list UrlEvent) : bool :=
  existsb (fun e => match e with
                    | Revoke (ObjectUrl m) => Nat.eqb m n
                    | _ => false
                    end) events.

Definition alive (events : list UrlEvent) : list nat :=
  flat_map (fun e => match e with
                     | Create n => if isRevoked n events then [] else [n]
                     | Revoke _ => []
                     end) events.

(** The promise of [preprocessImageUrls] with the object URL spelled out by
    the browser. *)
Definition erasePromise (br : Browser) (file : list Z) (p : PagePromise)
    : Promise :=
  match p with
  | PageResolved (ObjectUrl _) => Resolved (createObjectURL br file)
  | PageResolved (DataUrl s) => Resolved s
  | PageRejected => Rejected
  | PagePending => Pending
  end.

Definition emptyHome : Home :=
  {| image := None; preview := None; editableText := EmptyString |}.

(** * Worked examples *)

Example computeIntegralImage_2x2 :
  computeIntegralImage [1;0;0;255; 2;0;0;255; 3;0;0;255; 4;0;0;255] 2 2
  = [1; 3; 4; 10].
Proof. reflexivity. Qed.

(** The end-to-end example of the specification: a 3 by 3 uniform gray
    buffer, window 3. *)
Example threshold_gray128_constant_10 :
  applyAdaptiveThreshold gray128 3 3 3 10 = solid 255 255 255 255 9.
Proof. vm_compute. reflexivity. Qed.

Example threshold_gray128_constant_minus_10 :
  applyAdaptiveThreshold gray128 3 3 3 (-10) = solid 0 0 0 255 9.
Proof. vm_compute. reflexivity. Qed.

(** A tie is black: with constant 0 every pixel equals its local mean. *)
Example threshold_gray128_tie :
  applyAdaptiveThreshold gray128 3 3 3 0 = solid 0 0 0 255 9.
Proof. vm_compute. reflexivity. Qed.

(** A negative window size reads outside the integral image: the mean is
    [NaN] and every pixel comes out black. *)
Example threshold_negative_window :
  applyAdaptiveThreshold gray128 3 3 (-3) 10 = solid 0 0 0 255 9.
Proof. vm_compute. reflexivity. Qed.

Example applyMedianFilter_speckle :
  applyMedianFilter speckle 3 3
  = [9;1;1;1;  8;1;1;1;  7;1;1;1;
     6;1;1;1;  6;6;6;4;  4;1;1;1;
     3;1;1;1;  2;1;1;1;  1;1;1;1].
Proof. vm_compute. reflexivity. Qed.

(** Luminance bytes: 76.245 rounds to 76, 0.299 to 0, and the tie 28.5 to
    the even 28. *)
Example grayscaleLoop_4px :
  grayscaleLoop [255;0;0;7; 1;0;0;200; 255;255;255;0; 0;0;250;3]
  = [76;76;76;7; 0;0;0;200; 255;255;255;0; 28;28;28;3].
Proof. vm_compute. reflexivity. Qed.

(** The whole pixel work with the default options on one gray pixel drawn
    on a 2 by 2 canvas. *)
Example processPixels_default :
  processPixels (resolveConfig None) (uniformBuffer 128 2 2) 2 2
  = solid 255 255 255 255 4.
Proof. vm_compute. reflexivity. Qed.

Example handleFile_working :
  handleFile workingBrowser true [1; 2; 3]
  = Some (ProcessedUrl "data:image/png;base64,AAAA").
Proof. vm_compute. reflexivity. Qed.

(** * Properties *)

(** ** Typed arrays and loops *)

Section ArrayFacts.

Implicit Types (a : list Z) (i j v : Z).

Lemma length_write a i v : length (write a i v) = length a.
Proof.
  unfold write. destruct (i <? 0); [reflexivity | apply length_insert].
Qed.

Lemma read_write_eq a i v :
  0 <= i < Z.of_nat (length a) -> read (write a i v) i = Some v.
Proof.
  intros Hi. unfold read, write.
  destruct (Z.ltb_spec i 0); [lia |].
  apply list_lookup_insert_eq. lia.
Qed.

Lemma read_write_ne a i j v : i <> j -> read (write a i v) j = read a j.
Proof.
  intros Hij. unfold read, write.
  destruct (Z.ltb_spec j 0); [reflexivity |].
  destruct (Z.ltb_spec i 0); [reflexivity |].
  apply list_lookup_insert_ne. lia.
Qed.

Lemma read_is_Some a i :
  0 <= i < Z.of_nat (length a) -> exists v, read a i = Some v.
Proof.
  intros Hi. unfold read.
  destruct (Z.ltb_spec i 0); [lia |].
  destruct (lookup_lt_is_Some_2 a (Z.to_nat i)) as [v Hv]; [lia |].
  exists v. exact Hv.
Qed.

Lemma read_Some_bound a i v :
  read a i = Some v -> 0 <= i < Z.of_nat (length a).
Proof.
  unfold read. destruct (Z.ltb_spec i 0); [discriminate |].
  intros Hv. apply lookup_lt_Some in Hv. lia.
Qed.

Lemma read_zeros n i :
  0 <= i < Z.of_nat n -> read (zeros n) i = Some 0.
Proof.
  intros Hi. unfold read, zeros.
  destruct (Z.ltb_spec i 0); [lia |].
  apply lookup_replicate_2. lia.
Qed.

Lemma read_bytes a i v :
  bytes a -> read a i = Some v -> 0 <= v <= 255.
Proof.
  unfold bytes, read. intros Hb.
  destruct (i <? 0); [discriminate |]. intros Hv.
  rewrite List.Forall_forall in Hb. apply Hb.
  apply list_elem_of_In. eapply list_elem_of_lookup_2. exact Hv.
Qed.

(** Two arrays with the same length and the same reads are equal. *)
Lemma read_ext a b :
  length a = length b ->
  (forall i, 0 <= i < Z.of_nat (length a) -> read a i = read b i) ->
  a = b.
Proof.
  intros Hlen Hrd. apply list_eq. intros n.
  destruct (Nat.lt_ge_cases n (length a)) as [Hn | Hn].
  - specialize (Hrd (Z.of_nat n)). unfold read in Hrd.
    destruct (Z.ltb_spec (Z.of_nat n) 0); [lia |].
    rewrite Nat2Z.id in Hrd. apply Hrd. lia.
  - rewrite !lookup_ge_None_2; [reflexivity | lia | lia].
Qed.

End ArrayFacts.

Lemma range_succ n : 0 <= n -> range (n + 1) = range n ++ [n].
Proof.
  intros Hn. unfold range.
  replace (Z.to_nat (n + 1)) with (S (Z.to_nat n)) by lia.
  rewrite seq_S, map_app. simpl. rewrite Z2Nat.id by lia. reflexivity.
Qed.

Lemma range_nonpos n : n <= 0 -> range n = [].
Proof.
  intros Hn. unfold range. replace (Z.to_nat n) with 0%nat by lia. reflexivity.
Qed.

(** Loop invariants: a property indexed by the number of iterations done. *)
Lemma fold_range_inv {S : Type} (P : Z -> S -> Prop) (f : S -> Z -> S)
    (n : Z) (init : S) :
  0 <= n ->
  P 0 init ->
  (forall k st, 0 <= k < n -> P k st -> P (k + 1) (f st k)) ->
  P n (fold_left f (range n) init).
Proof.
  intros Hn H0 Hstep.
  assert (Hall : forall m, 0 <= m -> m <= n -> P m (fold_left f (range m) init)).
  { intros m Hm. pattern m. apply natlike_ind; [| | exact Hm].
    - intros _. exact H0.
    - intros k Hk IH Hle. unfold Z.succ. rewrite range_succ by lia.
      rewrite fold_left_app. simpl. apply Hstep; [lia |]. apply IH. lia. }
  apply Hall; lia.
Qed.

Lemma fold_left_mapped {S A B : Type} (f : S -> B -> S) (g : A -> B)
    (l : list A) (init : S) :
  fold_left f (map g l) init = fold_left (fun st k => f st (g k)) l init.
Proof.
  revert init. induction l as [| k l IH]; intros init; simpl;
    [reflexivity | apply IH].
Qed.

Lemma fold_rangeFrom_inv {S : Type} (P : Z -> S -> Prop) (f : S -> Z -> S)
    (lo hi : Z) (init : S) :
  lo <= hi ->
  P lo init ->
  (forall k st, lo <= k < hi -> P k st -> P (k + 1) (f st k)) ->
  P hi (fold_left f (rangeFrom lo hi) init).
Proof.
  intros Hle H0 Hstep. unfold rangeFrom.
  rewrite fold_left_mapped.
  replace hi with (lo + (hi - lo)) at 1 by lia.
  apply (fold_range_inv (fun k st => P (lo + k) st)
           (fun st k => f st (lo + k))); [lia | | ].
  - replace (lo + 0) with lo by lia. exact H0.
  - intros k st Hk HP. replace (lo + (k + 1)) with (lo + k + 1) by lia.
    apply Hstep; [lia | exact HP].
Qed.

(** Pixel coordinates and linear indices. *)
Lemma index_inj width x y x' y' :
  0 <= x < width -> 0 <= x' < width ->
  y * width + x = y' * width + x' -> x = x' /\ y = y'.
Proof.
  intros Hx Hx' Heq.
  assert (y = y') by nia. subst. lia.
Qed.

Lemma index_bound width height x y :
  0 <= x < width -> 0 <= y < height -> 0 <= y * width + x < width * height.
Proof. intros Hx Hy. nia. Qed.

(** ** Brute-force sums *)

Lemma bigsum_ext (f g : Z -> Z) (n : nat) :
  (forall k, 0 <= k < Z.of_nat n -> f k = g k) -> bigsum f n = bigsum g n.
Proof.
  induction n as [| n IH]; intros Hfg; [reflexivity |].
  simpl. rewrite IH, (Hfg (Z.of_nat n)); [reflexivity | lia |].
  intros k Hk. apply Hfg. lia.
Qed.

Lemma bigsum_bounds (f : Z -> Z) (lo hi : Z) (n : nat) :
  (forall k, 0 <= k < Z.of_nat n -> lo <= f k <= hi) ->
  Z.of_nat n * lo <= bigsum f n <= Z.of_nat n * hi.
Proof.
  induction n as [| n IH]; intros Hf; [simpl; lia |].
  cbn [bigsum].
  assert (Hn : lo <= f (Z.of_nat n) <= hi) by (apply Hf; lia).
  assert (IH' : Z.of_nat n * lo <= bigsum f n <= Z.of_nat n * hi)
    by (apply IH; intros k Hk; apply Hf; lia).
  lia.
Qed.

Lemma bigsum_const (f : Z -> Z) (c : Z) (n : nat) :
  (forall k, 0 <= k < Z.of_nat n -> f k = c) -> bigsum f n = Z.of_nat n * c.
Proof.
  intros Hf.
  pose proof (bigsum_bounds f c c n) as Hb.
  assert (Z.of_nat n * c <= bigsum f n <= Z.of_nat n * c); [| lia].
  apply Hb. intros k Hk. rewrite Hf by exact Hk. lia.
Qed.

Lemma bigsum_app (f : Z -> Z) (n m : nat) :
  bigsum f (n + m) = bigsum f n + bigsum (fun k => f (Z.of_nat n + k)) m.
Proof.
  induction m as [| m IH].
  - rewrite Nat.add_0_r. simpl. lia.
  - rewrite Nat.add_succ_r. cbn [bigsum]. rewrite IH.
    rewrite Nat2Z.inj_add. lia.
Qed.

Lemma bigsum_plus (f g : Z -> Z) (n : nat) :
  bigsum (fun k => f k + g k) n = bigsum f n + bigsum g n.
Proof. induction n as [| n IH]; simpl; [reflexivity | rewrite IH; lia]. Qed.

Section Sums.

Variables (data : list Z) (width : Z).

Lemma rowSum_empty x1 x2 y : x2 < x1 -> rowSum data width x1 x2 y = 0.
Proof.
  intros H. unfold rowSum.
  replace (Z.to_nat (x2 - x1 + 1)) with 0%nat by lia. reflexivity.
Qed.

Lemma rowSum_snoc x1 x2 y :
  x1 <= x2 ->
  rowSum data width x1 x2 y
  = rowSum data width x1 (x2 - 1) y + intensity data width x2 y.
Proof.
  intros H. unfold rowSum.
  replace (Z.to_nat (x2 - x1 + 1)) with (S (Z.to_nat (x2 - 1 - x1 + 1))) by lia.
  cbn [bigsum]. do 2 f_equal. lia.
Qed.

Lemma rectSum_empty x1 y1 x2 y2 :
  y2 < y1 -> rectSum data width x1 y1 x2 y2 = 0.
Proof.
  intros H. unfold rectSum.
  replace (Z.to_nat (y2 - y1 + 1)) with 0%nat by lia. reflexivity.
Qed.

Lemma rectSum_snoc x1 y1 x2 y2 :
  y1 <= y2 ->
  rectSum data width x1 y1 x2 y2
  = rectSum data width x1 y1 x2 (y2 - 1) + rowSum data width x1 x2 y2.
Proof.
  intros H. unfold rectSum.
  replace (Z.to_nat (y2 - y1 + 1)) with (S (Z.to_nat (y2 - 1 - y1 + 1))) by lia.
  cbn [bigsum]. do 2 f_equal. lia.
Qed.

(** A row segment splits at any column. *)
Lemma rowSum_split x1 xm x2 y :
  x1 <= xm -> xm <= x2 + 1 ->
  rowSum data width x1 x2 y
  = rowSum data width x1 (xm - 1) y + rowSum data width xm x2 y.
Proof.
  intros H1 H2. unfold rowSum.
  replace (Z.to_nat (x2 - x1 + 1))
    with (Z.to_nat (xm - 1 - x1 + 1) + Z.to_nat (x2 - xm + 1))%nat by lia.
  rewrite bigsum_app. f_equal.
  apply bigsum_ext. intros k Hk. f_equal. lia.
Qed.

(** A rectangle splits at any column and at any row. *)
Lemma rectSum_split_x x1 xm x2 y1 y2 :
  x1 <= xm -> xm <= x2 + 1 ->
  rectSum data width x1 y1 x2 y2
  = rectSum data width x1 y1 (xm - 1) y2 + rectSum data width xm y1 x2 y2.
Proof.
  intros H1 H2. unfold rectSum. rewrite <- bigsum_plus.
  apply bigsum_ext. intros k Hk. apply rowSum_split; assumption.
Qed.

Lemma rectSum_split_y x1 x2 y1 ym y2 :
  y1 <= ym -> ym <= y2 + 1 ->
  rectSum data width x1 y1 x2 y2
  = rectSum data width x1 y1 x2 (ym - 1) + rectSum data width x1 ym x2 y2.
Proof.
  intros H1 H2. unfold rectSum.
  replace (Z.to_nat (y2 - y1 + 1))
    with (Z.to_nat (ym - 1 - y1 + 1) + Z.to_nat (y2 - ym + 1))%nat by lia.
  rewrite bigsum_app. f_equal.
  apply bigsum_ext. intros k Hk. f_equal. lia.
Qed.

(** Inclusion and exclusion over the four prefix rectangles. *)
Lemma rectSum_inclusion_exclusion x1 y1 x2 y2 :
  0 <= x1 -> x1 <= x2 + 1 -> 0 <= y1 -> y1 <= y2 + 1 ->
  rectSum data width x1 y1 x2 y2
  = rectSum data width 0 0 x2 y2 + rectSum data width 0 0 (x1 - 1) (y1 - 1)
    - rectSum data width 0 0 x2 (y1 - 1) - rectSum data width 0 0 (x1 - 1) y2.
Proof.
  intros Hx1 Hx2 Hy1 Hy2.
  rewrite (rectSum_split_y 0 x2 0 y1 y2) by lia.
  rewrite (rectSum_split_x 0 x1 x2 y1 y2) by lia.
  rewrite (rectSum_split_y 0 (x1 - 1) 0 y1 y2) by lia.
  lia.
Qed.

Hypothesis Hbytes : bytes data.

Lemma intensity_byte x y : 0 <= intensity data width x y <= 255.
Proof.
  unfold intensity.
  destruct (read data ((y * width + x) * 4)) as [v |] eqn:Hv; simpl; [| lia].
  eapply read_bytes; eassumption.
Qed.

Lemma rowSum_bounds x1 x2 y :
  x1 <= x2 + 1 -> 0 <= rowSum data width x1 x2 y <= (x2 - x1 + 1) * 255.
Proof.
  intros H. unfold rowSum.
  pose proof (bigsum_bounds (fun dx => intensity data width (x1 + dx) y)
                0 255 (Z.to_nat (x2 - x1 + 1))) as Hb.
  rewrite Z2Nat.id in Hb by lia.
  assert (Hb' := Hb (fun k _ => intensity_byte (x1 + k) y)). lia.
Qed.

Lemma rectSum_bounds x1 y1 x2 y2 :
  x1 <= x2 + 1 -> y1 <= y2 + 1 ->
  0 <= rectSum data width x1 y1 x2 y2 <= (x2 - x1 + 1) * (y2 - y1 + 1) * 255.
Proof.
  intros Hx Hy. unfold rectSum.
  pose proof (bigsum_bounds (fun dy => rowSum data width x1 x2 (y1 + dy))
                0 ((x2 - x1 + 1) * 255) (Z.to_nat (y2 - y1 + 1))) as Hb.
  rewrite Z2Nat.id in Hb by lia.
  assert (Hb' := Hb (fun k _ => rowSum_bounds x1 x2 (y1 + k) Hx)). lia.
Qed.

End Sums.

(** ** The integral image holds the prefix sums, modulo [2^32] *)

Lemma wrap32_small z : - 2 ^ 31 <= z < 2 ^ 31 -> Num.wrap32 z = z.
Proof. intros Hz. unfold Num.wrap32. rewrite Z.mod_small; lia. Qed.

Lemma wrap32_add_l a b : Num.wrap32 (Num.wrap32 a + b) = Num.wrap32 (a + b).
Proof.
  unfold Num.wrap32. f_equal.
  replace ((a + 2 ^ 31) mod 2 ^ 32 - 2 ^ 31 + b + 2 ^ 31)
    with ((a + 2 ^ 31) mod 2 ^ 32 + b) by lia.
  rewrite Z.add_mod_idemp_l by lia. f_equal. lia.
Qed.

Section IntegralImage.

Variables (data : list Z) (width height : Z).
Hypothesis Hwf : wellFormed data width height.

Lemma read_intensity x y :
  0 <= x < width -> 0 <= y < height ->
  read data ((y * width + x) * 4) = Some (intensity data width x y).
Proof.
  intros Hx Hy. unfold intensity.
  destruct Hwf as (_ & _ & Hlen).
  pose proof (index_bound width height x y Hx Hy) as Hi.
  destruct (read_is_Some data ((y * width + x) * 4)) as [v Hv]; [lia |].
  rewrite Hv. reflexivity.
Qed.

Lemma integralCell_inv y x st :
  0 <= y < height -> 0 <= x < width ->
  integralCellInv data width height y x st ->
  integralCellInv data width height y (x + 1) (integralCell data width y st x).
Proof.
  intros Hy Hx. destruct st as [integral sum].
  intros (Hlen & Hsum & Hcells). simpl in Hlen, Hsum, Hcells.
  pose proof (index_bound width height x y Hx Hy) as Hi.
  unfold integralCell. subst sum.
  rewrite (read_intensity x y Hx Hy). cbn [Num.add].
  assert (Hrow : rowSum data width 0 (x - 1) y + intensity data width x y
                 = rowSum data width 0 x y)
    by (rewrite (rowSum_snoc data width 0 x y) by lia; reflexivity).
  rewrite Hrow.
  assert (Hnew :
    (if y =? 0
     then Num.toInt32 (Some (rowSum data width 0 x y))
     else Num.toInt32
            (Num.add (read integral ((y - 1) * width + x))
               (Some (rowSum data width 0 x y))))
    = prefixCell data width x y).
  { unfold prefixCell. rewrite (rectSum_snoc data width 0 0 x y) by lia.
    destruct (Z.eqb_spec y 0) as [-> | Hy0].
    - rewrite rectSum_empty by lia. reflexivity.
    - rewrite (Hcells x (y - 1)) by lia. cbn [Num.add Num.toInt32].
      unfold prefixCell. apply wrap32_add_l. }
  assert (Hst :
    (if y =? 0
     then write integral (y * width + x)
            (Num.toInt32 (Some (rowSum data width 0 x y)))
     else write integral (y * width + x)
            (Num.toInt32
               (Num.add (read integral ((y - 1) * width + x))
                  (Some (rowSum data width 0 x y)))))
    = write integral (y * width + x) (prefixCell data width x y)).
  { rewrite <- Hnew. destruct (y =? 0); reflexivity. }
  rewrite Hst. clear Hst Hnew.
  split; [| split]; cbn [fst snd].
  - rewrite length_write. exact Hlen.
  - f_equal. f_equal. lia.
  - intros x' y' Hx' Hy' Hbefore.
    destruct (Z.eq_dec (y * width + x) (y' * width + x')) as [Heq | Hne].
    + destruct (index_inj width x y x' y' Hx Hx' Heq) as [-> ->].
      apply read_write_eq. lia.
    + rewrite read_write_ne by exact Hne.
      apply Hcells; [exact Hx' | exact Hy' |].
      destruct Hbefore as [Hlt | [-> Hlt]]; [left; exact Hlt |].
      right. split; [reflexivity |].
      assert (x' <> x) by (intros ->; apply Hne; reflexivity). lia.
Qed.

Lemma integralRow_inv y integral :
  0 <= y < height ->
  integralRowInv data width height y integral ->
  integralRowInv data width height (y + 1) (integralRow data width integral y).
Proof.
  intros Hy (Hlen & Hrows). unfold integralRow.
  destruct Hwf as (Hw & _ & _).
  assert (Hend : integralCellInv data width height y width
            (fold_left (integralCell data width y) (range width)
               (integral, Some 0))).
  { apply (fold_range_inv (integralCellInv data width height y)); [exact Hw | |].
    - split; [exact Hlen | split]; cbn [fst snd].
      + rewrite rowSum_empty by lia. reflexivity.
      + intros x' y' Hx' Hy' [Hlt | [_ Hlt]]; [| lia].
        apply Hrows; lia.
    - intros k st Hk. apply integralCell_inv; assumption. }
  destruct Hend as (Hlen' & _ & Hcells).
  split; [exact Hlen' |].
  intros x' y' Hx' Hy'. apply Hcells; [exact Hx' | lia |].
  destruct (Z.eq_dec y' y) as [-> | Hne]; [right; lia | left; lia].
Qed.

Lemma computeIntegralImage_inv :
  integralRowInv data width height height
    (computeIntegralImage data width height).
Proof.
  unfold computeIntegralImage. destruct Hwf as (_ & Hh & _).
  apply (fold_range_inv (integralRowInv data width height)); [exact Hh | |].
  - split; [apply length_replicate |]. intros x' y' _ Hy'. lia.
  - intros k st Hk. apply integralRow_inv. exact Hk.
Qed.

Lemma length_computeIntegralImage :
  length (computeIntegralImage data width height) = Z.to_nat (width * height).
Proof. apply computeIntegralImage_inv. Qed.

(** Every cell holds the prefix sum as a 32-bit integer. *)
Lemma computeIntegralImage_wrap x y :
  0 <= x < width -> 0 <= y < height ->
  read (computeIntegralImage data width height) (y * width + x)
  = Some (Num.wrap32 (rectSum data width 0 0 x y)).
Proof.
  intros Hx Hy. destruct computeIntegralImage_inv as (_ & Hcells).
  apply Hcells; assumption.
Qed.

Hypothesis Hbytes : bytes data.
Hypothesis Hfits : width * height * 255 < 2 ^ 31.

(** When the total intensity fits 32 bits, every cell is the prefix sum. *)
Lemma computeIntegralImage_exact x y :
  0 <= x < width -> 0 <= y < height ->
  read (computeIntegralImage data width height) (y * width + x)
  = Some (rectSum data width 0 0 x y).
Proof.
  intros Hx Hy. rewrite computeIntegralImage_wrap by assumption.
  f_equal. apply wrap32_small.
  pose proof (rectSum_bounds data width Hbytes 0 0 x y) as Hb.
  assert (0 <= rectSum data width 0 0 x y <= (x - 0 + 1) * (y - 0 + 1) * 255)
    by (apply Hb; lia).
  assert ((x - 0 + 1) * (y - 0 + 1) <= width * height) by nia.
  lia.
Qed.

End IntegralImage.

(** ** Loop nests that rewrite one pixel per iteration *)

Lemma read_write a i j v :
  read (write a i v) j
  = if Z.eq_dec i j then (fun _ => v) <$> read a j else read a j.
Proof.
  destruct (Z.eq_dec i j) as [-> | Hne]; [| apply read_write_ne; exact Hne].
  destruct (read a j) as [old |] eqn:Hold.
  - apply read_write_eq. eapply read_Some_bound. exact Hold.
  - simpl. destruct (read (write a j v) j) as [new |] eqn:Hnew; [| reflexivity].
    apply read_Some_bound in Hnew. rewrite length_write in Hnew.
    destruct (read_is_Some a j Hnew) as [w Hw]. congruence.
Qed.

Lemma channel_inj width x y c x' y' c' :
  0 <= x < width -> 0 <= x' < width -> 0 <= c < 4 -> 0 <= c' < 4 ->
  (y * width + x) * 4 + c = (y' * width + x') * 4 + c' ->
  x = x' /\ y = y' /\ c = c'.
Proof.
  intros Hx Hx' Hc Hc' Heq.
  assert (Hi : y * width + x = y' * width + x') by lia.
  destruct (index_inj width x y x' y' Hx Hx' Hi) as [-> ->].
  repeat split; lia.
Qed.

Lemma rangeFrom_0 n : rangeFrom 0 n = range n.
Proof.
  unfold rangeFrom. rewrite Z.sub_0_r.
  rewrite <- (map_id (range n)) at 2. apply map_ext. intros k. reflexivity.
Qed.

Lemma rangeFrom_empty lo hi : hi <= lo -> rangeFrom lo hi = [].
Proof. intros H. unfold rangeFrom. rewrite range_nonpos by lia. reflexivity. Qed.

Section PixelLoop.

Variable cell : Z -> list Z -> Z -> list Z.
Variable W : Z -> Z -> Z -> option Z -> option Z.
Variables (init : list Z) (width xlo xhi ylo yhi : Z).

Hypothesis Hxlo : 0 <= xlo.
Hypothesis Hxhi : xhi <= width.

(** The body keeps the length, leaves the other pixels alone, and
    rewrites its own channels by [W]. *)
Hypothesis cell_length : forall y st x, length (cell y st x) = length st.
Hypothesis cell_other : forall y st x j,
  (forall c, 0 <= c < 4 -> j <> (y * width + x) * 4 + c) ->
  read (cell y st x) j = read st j.
Hypothesis cell_own : forall y st x c,
  xlo <= x < xhi -> ylo <= y < yhi -> 0 <= c < 4 ->
  read (cell y st x) ((y * width + x) * 4 + c)
  = W x y c (read st ((y * width + x) * 4 + c)).

Lemma pixelCell_inv y x st :
  ylo <= y < yhi -> xlo <= x < xhi ->
  pixelCellInv W init width xlo xhi ylo y x st ->
  pixelCellInv W init width xlo xhi ylo y (x + 1) (cell y st x).
Proof.
  intros Hy Hx (Hlen & Hdone & Hrest).
  split; [| split].
  - rewrite cell_length. exact Hlen.
  - intros x' y' c Hx' Hy' Hbefore Hc.
    destruct (Z.eq_dec y' y) as [-> | Hyne];
      [destruct (Z.eq_dec x' x) as [-> | Hxne] |].
    + rewrite cell_own by assumption. f_equal.
      apply Hrest. intros x'' y'' c'' Hx'' Hy'' Hb'' Hc'' Heq.
      destruct (channel_inj width x y c x'' y'' c'') as (-> & -> & _);
        [lia | lia | lia | lia | exact Heq | lia].
    + rewrite cell_other.
      * apply Hdone; [exact Hx' | exact Hy' | right; lia | exact Hc].
      * intros c' Hc' Heq.
        destruct (channel_inj width x' y c x y c') as (? & _);
          [lia | lia | lia | lia | exact Heq | contradiction].
    + rewrite cell_other.
      * apply Hdone; [exact Hx' | exact Hy' | left; lia | exact Hc].
      * intros c' Hc' Heq.
        destruct (channel_inj width x' y' c x y c') as (_ & ? & _);
          [lia | lia | lia | lia | exact Heq | contradiction].
  - intros j Hj. rewrite cell_other.
    + apply Hrest. intros x' y' c Hx' Hy' Hbefore Hc.
      apply Hj; [exact Hx' | exact Hy' | | exact Hc].
      destruct Hbefore as [Hlt | [-> Hlt]]; [left; exact Hlt | right; lia].
    + intros c Hc. apply Hj; [exact Hx | lia | right; lia | exact Hc].
Qed.

Lemma pixelRow_inv y st :
  ylo <= y < yhi ->
  pixelRowInv W init width xlo xhi ylo y st ->
  pixelRowInv W init width xlo xhi ylo (y + 1)
    (fold_left (cell y) (rangeFrom xlo xhi) st).
Proof.
  intros Hy (Hlen & Hdone & Hrest).
  destruct (Z.le_gt_cases xlo xhi) as [Hle | Hgt].
  - assert (Hend : pixelCellInv W init width xlo xhi ylo y xhi
              (fold_left (cell y) (rangeFrom xlo xhi) st)).
    { apply (fold_rangeFrom_inv (pixelCellInv W init width xlo xhi ylo y));
        [exact Hle | |].
      - split; [exact Hlen | split].
        + intros x' y' c Hx' Hy' [Hlt | [_ Hlt]] Hc; [| lia].
          apply Hdone; [exact Hx' | lia | exact Hc].
        + intros j Hj. apply Hrest. intros x' y' c Hx' Hy' Hc.
          apply Hj; [exact Hx' | lia | left; lia | exact Hc].
      - intros k st' Hk. apply pixelCell_inv; assumption. }
    destruct Hend as (Hlen' & Hdone' & Hrest').
    split; [exact Hlen' | split].
    + intros x' y' c Hx' Hy' Hc. apply Hdone'; [exact Hx' | lia | | exact Hc].
      destruct (Z.eq_dec y' y) as [-> | Hne]; [right; lia | left; lia].
    + intros j Hj. apply Hrest'. intros x' y' c Hx' Hy' Hbefore Hc.
      apply Hj; [exact Hx' | lia | exact Hc].
  - rewrite (rangeFrom_empty xlo xhi) by lia. simpl.
    split; [exact Hlen | split].
    + intros x' y' c Hx'. lia.
    + intros j _. apply Hrest. intros x' y' c Hx'. lia.
Qed.

(** What the whole loop nest leaves in the array. *)
Lemma pixel_loop :
  let final :=
    fold_left (fun st y => fold_left (cell y) (rangeFrom xlo xhi) st)
      (rangeFrom ylo yhi) init in
  length final = length init /\
  (forall x y c, xlo <= x < xhi -> ylo <= y < yhi -> 0 <= c < 4 ->
     read final ((y * width + x) * 4 + c)
     = W x y c (read init ((y * width + x) * 4 + c))) /\
  (forall j,
     (forall x y c, xlo <= x < xhi -> ylo <= y < yhi -> 0 <= c < 4 ->
        j <> (y * width + x) * 4 + c) ->
     read final j = read init j).
Proof.
  intros final. subst final.
  destruct (Z.le_gt_cases ylo yhi) as [Hle | Hgt].
  - apply (fold_rangeFrom_inv (pixelRowInv W init width xlo xhi ylo)
             (fun st y => fold_left (cell y) (rangeFrom xlo xhi) st));
      [exact Hle | |].
    + split; [reflexivity | split].
      * intros x y c _ Hy. lia.
      * intros j _. reflexivity.
    + intros k st Hk. apply pixelRow_inv. exact Hk.
  - rewrite (rangeFrom_empty ylo yhi) by lia. simpl.
    split; [reflexivity | split].
    + intros x y c _ Hy. lia.
    + intros j _. reflexivity.
Qed.

End PixelLoop.

(** ** The thresholding loop, pixel by pixel *)

Ltac channel_cases c Hc :=
  assert (c = 0 \/ c = 1 \/ c = 2 \/ c = 3) as [-> | [-> | [-> | ->]]] by lia;
  clear Hc.

Ltac read_writes :=
  repeat rewrite read_write;
  repeat match goal with
         | |- context [Z.eq_dec ?a ?b] => destruct (Z.eq_dec a b); try lia
         end.

Section ThresholdLoop.

Variables (data integral : list Z).
Variables (width height halfWindow constant : Z).

Local Abbreviation cell :=
  (thresholdCell data integral width height halfWindow constant).

Lemma thresholdCell_length y st x : length (cell y st x) = length st.
Proof.
  unfold thresholdCell. rewrite !length_write. reflexivity.
Qed.

Lemma thresholdCell_other y st x j :
  (forall c, 0 <= c < 4 -> j <> (y * width + x) * 4 + c) ->
  read (cell y st x) j = read st j.
Proof.
  intros Hj. unfold thresholdCell.
  pose proof (Hj 0). pose proof (Hj 1). pose proof (Hj 2). pose proof (Hj 3).
  rewrite !read_write_ne by lia. reflexivity.
Qed.

Lemma thresholdCell_own y st x c :
  0 <= c < 4 ->
  read (cell y st x) ((y * width + x) * 4 + c)
  = thresholdWrite data integral width height halfWindow constant x y c
      (read st ((y * width + x) * 4 + c)).
Proof.
  intros Hc. unfold thresholdCell, thresholdWrite.
  channel_cases c Hc; read_writes; cbn [Z.ltb Z.compare]; try reflexivity.
  all: rewrite Z.add_0_r; reflexivity.
Qed.

End ThresholdLoop.

Lemma applyAdaptiveThreshold_loop data width height windowSize constant :
  0 <= width ->
  let integral := computeIntegralImage data width height in
  let out := applyAdaptiveThreshold data width height windowSize constant in
  length out = length data /\
  (forall x y c, 0 <= x < width -> 0 <= y < height -> 0 <= c < 4 ->
     read out ((y * width + x) * 4 + c)
     = thresholdWrite data integral width height (windowSize / 2) constant
         x y c (read (zeros (length data)) ((y * width + x) * 4 + c))).
Proof.
  intros Hw integral out.
  pose proof (pixel_loop
    (thresholdCell data integral width height (windowSize / 2) constant)
    (thresholdWrite data integral width height (windowSize / 2) constant)
    (zeros (length data)) width 0 width 0 height
    ltac:(lia) ltac:(lia)
    (thresholdCell_length data integral width height (windowSize / 2) constant)
    (thresholdCell_other data integral width height (windowSize / 2) constant)
    (fun y st x c _ _ Hc =>
       thresholdCell_own data integral width height (windowSize / 2) constant
         y st x c Hc)) as (Hlen & Hown & _).
  rewrite !rangeFrom_0 in Hlen, Hown.
  subst integral out. unfold applyAdaptiveThreshold, thresholdRow. cbv zeta.
  split.
  - etransitivity; [exact Hlen | apply length_replicate].
  - exact Hown.
Qed.

(** Inside a well-formed buffer the three colour channels receive [binary]
    and the opacity channel [255]. *)
Lemma applyAdaptiveThreshold_channel data width height windowSize constant x y c :
  wellFormed data width height ->
  0 <= x < width -> 0 <= y < height -> 0 <= c < 4 ->
  channel (applyAdaptiveThreshold data width height windowSize constant)
    width x y c
  = Some (if c <? 3
          then binaryAt data (computeIntegralImage data width height)
                 width height (windowSize / 2) constant x y
          else 255).
Proof.
  intros (Hw & Hh & Hlen) Hx Hy Hc.
  destruct (applyAdaptiveThreshold_loop data width height windowSize constant Hw)
    as (_ & Hown).
  unfold channel. rewrite Hown by assumption.
  pose proof (index_bound width height x y Hx Hy) as Hi.
  rewrite read_zeros by lia. reflexivity.
Qed.

Lemma length_applyAdaptiveThreshold data width height windowSize constant :
  0 <= width ->
  length (applyAdaptiveThreshold data width height windowSize constant)
  = length data.
Proof.
  intros Hw.
  apply (applyAdaptiveThreshold_loop data width height windowSize constant Hw).
Qed.

(** ** The local mean read off the integral image *)

Lemma rectSum_no_columns data width x1 y1 x2 y2 :
  x2 < x1 -> rectSum data width x1 y1 x2 y2 = 0.
Proof.
  intros H. unfold rectSum.
  rewrite (bigsum_const _ 0); [lia |].
  intros k _. apply rowSum_empty. exact H.
Qed.

Lemma wrap32_0 : Num.wrap32 0 = 0.
Proof. reflexivity. Qed.

Section WindowSum.

Variables (data : list Z) (width height : Z).
Hypothesis Hwf : wellFormed data width height.

Local Abbreviation integral :=
  (computeIntegralImage data width height).

(** A corner read, with the corners left of or above the image as [0]. *)
Lemma corner_read (inside : bool) x y :
  -1 <= x < width -> -1 <= y < height ->
  inside = (0 <=? x) && (0 <=? y) ->
  (if inside then read integral (y * width + x) else Some 0)
  = Some (prefixCell data width x y).
Proof.
  intros Hx Hy ->. unfold prefixCell.
  destruct (Z.leb_spec 0 x) as [Hx0 | Hx0];
    destruct (Z.leb_spec 0 y) as [Hy0 | Hy0]; cbn [andb].
  - apply computeIntegralImage_wrap; [exact Hwf | lia | lia].
  - rewrite rectSum_empty by lia. reflexivity.
  - rewrite rectSum_no_columns by lia. reflexivity.
  - rewrite rectSum_no_columns by lia. reflexivity.
Qed.

Lemma windowSum_wrap x1 y1 x2 y2 :
  0 <= x1 <= x2 -> x2 < width -> 0 <= y1 <= y2 -> y2 < height ->
  windowSum integral width x1 y1 x2 y2
  = Some (prefixCell data width x2 y2 + prefixCell data width (x1 - 1) (y1 - 1)
          - prefixCell data width x2 (y1 - 1)
          - prefixCell data width (x1 - 1) y2).
Proof.
  intros Hx1 Hx2 Hy1 Hy2. unfold windowSum.
  rewrite (corner_read ((0 <? x1) && (0 <? y1)) (x1 - 1) (y1 - 1));
    [| lia | lia |
     destruct (Z.ltb_spec 0 x1), (Z.ltb_spec 0 y1),
       (Z.leb_spec 0 (x1 - 1)), (Z.leb_spec 0 (y1 - 1)); try reflexivity; lia].
  rewrite (corner_read (0 <? y1) x2 (y1 - 1));
    [| lia | lia |
     destruct (Z.ltb_spec 0 y1), (Z.leb_spec 0 x2), (Z.leb_spec 0 (y1 - 1));
       try reflexivity; lia].
  rewrite (corner_read (0 <? x1) (x1 - 1) y2);
    [| lia | lia |
     destruct (Z.ltb_spec 0 x1), (Z.leb_spec 0 (x1 - 1)), (Z.leb_spec 0 y2);
       try reflexivity; lia].
  rewrite (corner_read true x2 y2);
    [| lia | lia |
     destruct (Z.leb_spec 0 x2), (Z.leb_spec 0 y2); try reflexivity; lia].
  reflexivity.
Qed.

Hypothesis Hbytes : bytes data.
Hypothesis Hfits : width * height * 255 < 2 ^ 31.

Lemma prefixCell_exact x y :
  -1 <= x < width -> -1 <= y < height ->
  prefixCell data width x y = rectSum data width 0 0 x y.
Proof.
  intros Hx Hy. unfold prefixCell. apply wrap32_small.
  pose proof (rectSum_bounds data width Hbytes 0 0 x y) as Hb.
  assert (0 <= rectSum data width 0 0 x y <= (x - 0 + 1) * (y - 0 + 1) * 255)
    by (apply Hb; lia).
  assert ((x - 0 + 1) * (y - 0 + 1) <= width * height) by nia.
  lia.
Qed.

(** Without overflow the formula [D + A - B - C] is the rectangle's sum. *)
Lemma windowSum_exact x1 y1 x2 y2 :
  0 <= x1 <= x2 -> x2 < width -> 0 <= y1 <= y2 -> y2 < height ->
  windowSum integral width x1 y1 x2 y2
  = Some (rectSum data width x1 y1 x2 y2).
Proof.
  intros Hx1 Hx2 Hy1 Hy2.
  rewrite windowSum_wrap by assumption.
  rewrite !prefixCell_exact by lia.
  rewrite (rectSum_inclusion_exclusion data width x1 y1 x2 y2) by lia.
  reflexivity.
Qed.

Lemma windowMean_exact x1 y1 x2 y2 :
  0 <= x1 <= x2 -> x2 < width -> 0 <= y1 <= y2 -> y2 < height ->
  windowMean integral width x1 y1 x2 y2
  = Some (inject_Z (rectSum data width x1 y1 x2 y2)
          / inject_Z ((x2 - x1 + 1) * (y2 - y1 + 1)))%Q.
Proof.
  intros Hx1 Hx2 Hy1 Hy2. unfold windowMean.
  rewrite windowSum_exact by assumption. reflexivity.
Qed.

End WindowSum.

(** ** Uniform buffers *)

Section Uniform.

Variables (v width height : Z).
Hypothesis Hw : 0 <= width.
Hypothesis Hh : 0 <= height.

Lemma uniformBuffer_wellFormed :
  wellFormed (uniformBuffer v width height) width height.
Proof.
  unfold wellFormed, uniformBuffer. rewrite length_replicate.
  repeat split; [exact Hw | exact Hh | nia].
Qed.

Lemma uniformBuffer_bytes : 0 <= v <= 255 -> bytes (uniformBuffer v width height).
Proof.
  intros Hv. unfold bytes, uniformBuffer.
  apply List.Forall_forall. intros z Hz.
  apply list_elem_of_In, elem_of_replicate in Hz. destruct Hz as [-> _]. exact Hv.
Qed.

Lemma read_uniformBuffer i :
  0 <= i < width * height * 4 -> read (uniformBuffer v width height) i = Some v.
Proof.
  intros Hi. unfold read, uniformBuffer.
  destruct (Z.ltb_spec i 0); [lia |].
  apply lookup_replicate_2. lia.
Qed.

Lemma intensity_uniformBuffer x y :
  0 <= x < width -> 0 <= y < height ->
  intensity (uniformBuffer v width height) width x y = v.
Proof.
  intros Hx Hy. unfold intensity.
  pose proof (index_bound width height x y Hx Hy).
  rewrite read_uniformBuffer by lia. reflexivity.
Qed.

Lemma rectSum_uniformBuffer x1 y1 x2 y2 :
  0 <= x1 -> x1 <= x2 + 1 -> x2 < width ->
  0 <= y1 -> y1 <= y2 + 1 -> y2 < height ->
  rectSum (uniformBuffer v width height) width x1 y1 x2 y2
  = (x2 - x1 + 1) * (y2 - y1 + 1) * v.
Proof.
  intros Hx1 Hx12 Hx2 Hy1 Hy12 Hy2. unfold rectSum.
  rewrite (bigsum_const _ ((x2 - x1 + 1) * v)); [rewrite Z2Nat.id by lia; lia |].
  intros dy Hdy. unfold rowSum.
  rewrite (bigsum_const _ v); [rewrite Z2Nat.id by lia; lia |].
  intros dx Hdx. apply intensity_uniformBuffer; lia.
Qed.

Lemma prefixCell_uniformBuffer x y :
  -1 <= x < width -> -1 <= y < height ->
  prefixCell (uniformBuffer v width height) width x y
  = Num.wrap32 ((x + 1) * (y + 1) * v).
Proof.
  intros Hx Hy. unfold prefixCell.
  rewrite rectSum_uniformBuffer by lia. f_equal. lia.
Qed.

End Uniform.

(** ** Sums beyond 32 bits: the white page *)

Lemma binaryAt_window data integral width height halfWindow constant x y
    x1 y1 x2 y2 :
  window width height halfWindow x y = (x1, y1, x2, y2) ->
  binaryAt data integral width height halfWindow constant x y
  = if aboveThreshold (read data ((y * width + x) * 4))
         (windowMean integral width x1 y1 x2 y2) constant
    then 255 else 0.
Proof. intros Hwin. unfold binaryAt. rewrite Hwin. reflexivity. Qed.

Lemma whitePage_wellFormed : wellFormed whitePage 3000 3000.
Proof. apply uniformBuffer_wellFormed; lia. Qed.

Lemma whitePage_bytes : bytes whitePage.
Proof. apply uniformBuffer_bytes; lia. Qed.

Lemma whitePage_prefix x y :
  -1 <= x < 3000 -> -1 <= y < 3000 ->
  prefixCell whitePage 3000 x y = Num.wrap32 ((x + 1) * (y + 1) * 255).
Proof. intros Hx Hy. apply prefixCell_uniformBuffer; lia. Qed.

(** The 41-pixel window of the pixel [(2902,2902)]: three of its four
    corner sums have wrapped, and the formula is off by [2^32]. *)
Lemma whitePage_windowSum :
  windowSum (computeIntegralImage whitePage 3000 3000) 3000 2882 2882 2922 2922
  = Some 4295395951.
Proof.
  rewrite (windowSum_wrap whitePage 3000 3000 whitePage_wellFormed) by lia.
  rewrite !whitePage_prefix by lia. reflexivity.
Qed.

Lemma whitePage_window_rectSum :
  rectSum whitePage 3000 2882 2882 2922 2922 = 428655.
Proof.
  unfold whitePage. rewrite rectSum_uniformBuffer by lia. reflexivity.
Qed.

(** C1 (defect): on a blank white page of 3000 by 3000 pixels, a well-formed
    buffer, the brute-force sum over the rectangle from (0,0) to (2999,2999)
    is 2295000000, but the cell of that corner in the table built by
    computeIntegralImage holds -1999967296: the 32-bit array element has
    wrapped around. *)
Theorem computeIntegralImage_wraps_on_whitePage :
  wellFormed whitePage 3000 3000 /\ bytes whitePage /\
  rectSum whitePage 3000 0 0 2999 2999 = 2295000000 /\
  read (computeIntegralImage whitePage 3000 3000) (2999 * 3000 + 2999)
  = Some (-1999967296).
Proof.
  split; [exact whitePage_wellFormed |].
  split; [exact whitePage_bytes |].
  split.
  - unfold whitePage. rewrite rectSum_uniformBuffer by lia. reflexivity.
  - rewrite (computeIntegralImage_wrap whitePage 3000 3000 whitePage_wellFormed)
      by lia.
    unfold whitePage. rewrite rectSum_uniformBuffer by lia. reflexivity.
Qed.

(** C2 (defect): on the same white page, for the rectangle with corners
    (2882,2882) and (2922,2922), which lies inside the image and has area
    1681, the brute-force sum is 428655 (a mean of 255), but the formula
    (D + A - B - C) / count over the table built by computeIntegralImage
    gives 4295395951 / 1681. *)
Theorem windowMean_wrong_on_whitePage :
  rectSum whitePage 3000 2882 2882 2922 2922 = 428655 /\
  (2922 - 2882 + 1) * (2922 - 2882 + 1) = 1681 /\
  windowMean (computeIntegralImage whitePage 3000 3000) 3000 2882 2882 2922 2922
  = Some (inject_Z 4295395951 / inject_Z 1681)%Q /\
  ~ (inject_Z 4295395951 / inject_Z 1681 == inject_Z 428655 / inject_Z 1681)%Q.
Proof.
  split; [exact whitePage_window_rectSum |].
  split; [reflexivity |].
  split.
  - unfold windowMean. rewrite whitePage_windowSum. reflexivity.
  - intros Heq. vm_compute in Heq. discriminate Heq.
Qed.

(** C3 (defect): on the same white page, thresholded with the window 41 and
    the constant 15 the pipeline uses, the pixel (2902,2902) has intensity
    255 and a window, (2882,2882)-(2922,2922), whose mean is 255, so that
    255 > 255 - 15 calls for white; applyAdaptiveThreshold writes 0 into its
    three colour channels. *)
Theorem applyAdaptiveThreshold_black_on_whitePage :
  window 3000 3000 (41 / 2) 2902 2902 = (2882, 2882, 2922, 2922) /\
  intensity whitePage 3000 2902 2902 = 255 /\
  rectSum whitePage 3000 2882 2882 2922 2922 = 1681 * 255 /\
  (inject_Z (1681 * 255) / inject_Z 1681 - inject_Z 15 < inject_Z 255)%Q /\
  forall c, 0 <= c < 3 ->
    channel (applyAdaptiveThreshold whitePage 3000 3000 41 15) 3000 2902 2902 c
    = Some 0.
Proof.
  split; [reflexivity |].
  split; [apply intensity_uniformBuffer; lia |].
  split; [exact whitePage_window_rectSum |].
  split; [reflexivity |].
  intros c Hc.
  rewrite (applyAdaptiveThreshold_channel whitePage 3000 3000 41 15 2902 2902 c
             whitePage_wellFormed) by lia.
  rewrite (binaryAt_window _ _ _ _ _ _ _ _ 2882 2882 2922 2922) by reflexivity.
  unfold windowMean. rewrite whitePage_windowSum.
  unfold whitePage. rewrite read_uniformBuffer by lia.
  destruct (Z.ltb_spec c 3); [reflexivity | lia].
Qed.

(** ** The classification rule in integers *)

(** [value > sum / count - constant] exactly when
    [sum < (value + constant) * count]. *)
Lemma aboveThreshold_divCount value sum count constant :
  0 < count ->
  aboveThreshold (Some value) (divCount (Some sum) count) constant
  = (sum <? (value + constant) * count).
Proof.
  intros Hc. destruct count as [| p | p]; [lia | | lia].
  unfold aboveThreshold, divCount, Qle_bool, Qminus, Qplus, Qopp, Qdiv, Qmult,
    Qinv, inject_Z. cbn [Qnum Qden].
  rewrite !Pos.mul_1_l, !Pos.mul_1_r, !Z.mul_1_r.
  destruct (Z.leb_spec (value * Z.pos p) (sum + - constant * Z.pos p));
    destruct (Z.ltb_spec sum ((value + constant) * Z.pos p));
    try reflexivity; lia.
Qed.

Lemma aboveThreshold_lt value mean constant :
  aboveThreshold (Some value) (Some mean) constant = true
  <-> (mean - inject_Z constant < inject_Z value)%Q.
Proof.
  unfold aboveThreshold. rewrite negb_true_iff.
  split.
  - intros Hle. apply Qnot_le_lt. intros H. apply Qle_bool_iff in H. congruence.
  - intros Hlt. destruct (Qle_bool (inject_Z value) (mean - inject_Z constant))
      eqn:Hle; [| reflexivity].
    apply Qle_bool_iff in Hle. exfalso. exact (Qlt_not_le _ _ Hlt Hle).
Qed.

Lemma window_inside width height halfWindow x y x1 y1 x2 y2 :
  0 <= halfWindow -> 0 <= x < width -> 0 <= y < height ->
  window width height halfWindow x y = (x1, y1, x2, y2) ->
  0 <= x1 <= x /\ x <= x2 < width /\ 0 <= y1 <= y /\ y <= y2 < height.
Proof.
  intros Hh Hx Hy Hwin. unfold window in Hwin.
  injection Hwin as <- <- <- <-. lia.
Qed.

(** Inside the pixel loops [count] is positive for every half window, also
    a negative one, so [sum / count] never divides by zero. *)
Lemma window_count_positive width height halfWindow x y x1 y1 x2 y2 :
  0 <= x < width -> 0 <= y < height ->
  window width height halfWindow x y = (x1, y1, x2, y2) ->
  0 < (x2 - x1 + 1) * (y2 - y1 + 1).
Proof.
  intros Hx Hy Hwin. unfold window in Hwin.
  injection Hwin as <- <- <- <-.
  destruct (Z.le_gt_cases 0 halfWindow) as [Hpos | Hneg].
  - apply Z.mul_pos_pos; lia.
  - replace (Z.min (x + halfWindow) (width - 1)) with (x + halfWindow) by lia.
    replace (Z.max (x - halfWindow) 0) with (x - halfWindow) by lia.
    replace (Z.min (y + halfWindow) (height - 1)) with (y + halfWindow) by lia.
    replace (Z.max (y - halfWindow) 0) with (y - halfWindow) by lia.
    apply Z.mul_neg_neg; lia.
Qed.

Lemma channel_decompose width height i :
  0 <= width -> 0 <= i < width * height * 4 ->
  exists x y c, 0 <= x < width /\ 0 <= y < height /\ 0 <= c < 4 /\
                i = (y * width + x) * 4 + c.
Proof.
  intros Hw Hi.
  assert (Hw0 : 0 < width)
    by (destruct (Z.eq_dec width 0) as [-> | Hne]; [lia | lia]).
  exists ((i / 4) mod width), ((i / 4) / width), (i mod 4).
  pose proof (Z.div_mod i 4 ltac:(lia)) as Hi4.
  pose proof (Z.mod_pos_bound i 4 ltac:(lia)) as Hc.
  pose proof (Z.div_mod (i / 4) width ltac:(lia)) as Hp.
  pose proof (Z.mod_pos_bound (i / 4) width Hw0) as Hx.
  assert (Hq : 0 <= i / 4 < width * height) by lia.
  assert (Hy : 0 <= i / 4 / width < height).
  { split; [apply Z.div_pos; lia |].
    apply Z.div_lt_upper_bound; lia. }
  repeat split; try lia.
Qed.

(** ** Thresholding a buffer without overflow *)

Section ThresholdExact.

Variables (data : list Z) (width height windowSize constant : Z).
Hypothesis Hwf : wellFormed data width height.
Hypothesis Hbytes : bytes data.
Hypothesis Hfits : width * height * 255 < 2 ^ 31.
Hypothesis Hwindow : 0 <= windowSize.

Local Abbreviation out :=
  (applyAdaptiveThreshold data width height windowSize constant).

(** The colour channels of a pixel in integers: white exactly when the
    window's sum is below [(value + constant) * count]. *)
Lemma threshold_channel_exact x y c x1 y1 x2 y2 :
  0 <= x < width -> 0 <= y < height -> 0 <= c < 3 ->
  window width height (windowSize / 2) x y = (x1, y1, x2, y2) ->
  channel out width x y c
  = Some (if rectSum data width x1 y1 x2 y2
             <? (intensity data width x y + constant)
                * ((x2 - x1 + 1) * (y2 - y1 + 1))
          then 255 else 0).
Proof.
  intros Hx Hy Hc Hwin.
  assert (Hhalf : 0 <= windowSize / 2) by (apply Z.div_pos; lia).
  destruct (window_inside _ _ _ _ _ _ _ _ _ Hhalf Hx Hy Hwin)
    as (Hx1 & Hx2 & Hy1 & Hy2).
  rewrite applyAdaptiveThreshold_channel by (assumption || lia).
  destruct (Z.ltb_spec c 3); [| lia].
  rewrite (binaryAt_window _ _ _ _ _ _ _ _ _ _ _ _ Hwin).
  unfold windowMean.
  rewrite (windowSum_exact data width height Hwf Hbytes Hfits) by lia.
  rewrite (read_intensity data width height Hwf) by assumption.
  rewrite aboveThreshold_divCount by nia. reflexivity.
Qed.

(** The classification rule against the brute-force mean of the window:
    white when the intensity is strictly above [mean - constant], black
    otherwise, equality included. *)
Lemma threshold_rule x y c x1 y1 x2 y2 :
  0 <= x < width -> 0 <= y < height -> 0 <= c < 3 ->
  window width height (windowSize / 2) x y = (x1, y1, x2, y2) ->
  let mean := (inject_Z (rectSum data width x1 y1 x2 y2)
               / inject_Z ((x2 - x1 + 1) * (y2 - y1 + 1)))%Q in
  let value := inject_Z (intensity data width x y) in
  ((mean - inject_Z constant < value)%Q -> channel out width x y c = Some 255) /\
  (~ (mean - inject_Z constant < value)%Q -> channel out width x y c = Some 0).
Proof.
  intros Hx Hy Hc Hwin mean value.
  assert (Hhalf : 0 <= windowSize / 2) by (apply Z.div_pos; lia).
  destruct (window_inside _ _ _ _ _ _ _ _ _ Hhalf Hx Hy Hwin)
    as (Hx1 & Hx2 & Hy1 & Hy2).
  rewrite applyAdaptiveThreshold_channel by (assumption || lia).
  destruct (Z.ltb_spec c 3); [| lia].
  rewrite (binaryAt_window _ _ _ _ _ _ _ _ _ _ _ _ Hwin).
  rewrite (windowMean_exact data width height Hwf Hbytes Hfits) by lia.
  rewrite (read_intensity data width height Hwf) by assumption.
  fold mean.
  destruct (aboveThreshold (Some (intensity data width x y)) (Some mean) constant)
    eqn:Habove.
  - split; [reflexivity |]. intros Hnot. exfalso. apply Hnot.
    apply aboveThreshold_lt. exact Habove.
  - split; [| reflexivity]. intros Hlt.
    apply aboveThreshold_lt in Hlt. congruence.
Qed.

Lemma threshold_alpha x y :
  0 <= x < width -> 0 <= y < height -> channel out width x y 3 = Some 255.
Proof.
  intros Hx Hy.
  rewrite applyAdaptiveThreshold_channel by (assumption || lia). reflexivity.
Qed.

Lemma threshold_wellFormed : wellFormed out width height.
Proof.
  destruct Hwf as (Hw & Hh & Hlen). repeat split; [exact Hw | exact Hh |].
  rewrite length_applyAdaptiveThreshold by exact Hw. exact Hlen.
Qed.

Lemma threshold_bytes : bytes out.
Proof.
  unfold bytes. apply List.Forall_forall. intros v Hv.
  apply list_elem_of_In, list_elem_of_lookup in Hv. destruct Hv as [n Hn].
  assert (Hrd : read out (Z.of_nat n) = Some v).
  { unfold read. destruct (Z.ltb_spec (Z.of_nat n) 0); [lia |].
    rewrite Nat2Z.id. exact Hn. }
  pose proof (read_Some_bound _ _ _ Hrd) as Hb.
  destruct threshold_wellFormed as (Hw & Hh & Hlen).
  destruct (channel_decompose width height (Z.of_nat n) Hw ltac:(lia))
    as (x & y & c & Hx & Hy & Hc & Heq).
  pose proof (applyAdaptiveThreshold_channel data width height windowSize
                constant x y c Hwf Hx Hy Hc) as Hch.
  unfold channel in Hch. rewrite <- Heq, Hrd in Hch.
  injection Hch as ->.
  destruct (c <? 3); [| lia].
  unfold binaryAt. destruct (window _ _ _ _ _) as [[[? ?] ?] ?].
  destruct (aboveThreshold _ _ _); lia.
Qed.

End ThresholdExact.

(** ** Running the thresholder twice *)

Lemma rectSum_constant data width v x1 y1 x2 y2 :
  (forall x y, x1 <= x <= x2 -> y1 <= y <= y2 -> intensity data width x y = v) ->
  x1 <= x2 + 1 -> y1 <= y2 + 1 ->
  rectSum data width x1 y1 x2 y2 = (x2 - x1 + 1) * (y2 - y1 + 1) * v.
Proof.
  intros Hv Hx Hy. unfold rectSum.
  rewrite (bigsum_const _ ((x2 - x1 + 1) * v)); [rewrite Z2Nat.id by lia; lia |].
  intros dy Hdy. unfold rowSum.
  rewrite (bigsum_const _ v); [rewrite Z2Nat.id by lia; lia |].
  intros dx Hdx. apply Hv; lia.
Qed.

Lemma intensity_channel data width height x y :
  wellFormed data width height -> 0 <= x < width -> 0 <= y < height ->
  channel data width x y 0 = Some (intensity data width x y).
Proof.
  intros Hwf Hx Hy. unfold channel. rewrite Z.add_0_r.
  apply (read_intensity data width height Hwf); assumption.
Qed.

Section Twice.

Variables (data : list Z) (width height windowSize constant : Z).
Hypothesis Hwf : wellFormed data width height.
Hypothesis Hbytes : bytes data.
Hypothesis Hfits : width * height * 255 < 2 ^ 31.
Hypothesis Hwindow : 0 <= windowSize.

Local Abbreviation once :=
  (applyAdaptiveThreshold data width height windowSize constant).

(** On a buffer of one intensity the outcome depends on the sign of the
    constant alone. *)
Lemma threshold_uniform v x y c :
  (forall x' y', 0 <= x' < width -> 0 <= y' < height ->
     intensity data width x' y' = v) ->
  0 <= x < width -> 0 <= y < height -> 0 <= c < 3 ->
  channel once width x y c = Some (if 0 <? constant then 255 else 0).
Proof.
  intros Hv Hx Hy Hc.
  destruct (window width height (windowSize / 2) x y)
    as [[[x1 y1] x2] y2] eqn:Hwin.
  assert (Hhalf : 0 <= windowSize / 2) by (apply Z.div_pos; lia).
  destruct (window_inside _ _ _ _ _ _ _ _ _ Hhalf Hx Hy Hwin)
    as (Hx1 & Hx2 & Hy1 & Hy2).
  rewrite (threshold_channel_exact data width height windowSize constant
             Hwf Hbytes Hfits Hwindow x y c x1 y1 x2 y2) by assumption.
  rewrite (rectSum_constant data width v) by (try lia; intros; apply Hv; lia).
  rewrite Hv by assumption. f_equal.
  set (n := (x2 - x1 + 1) * (y2 - y1 + 1)).
  assert (Hn : 0 < n) by (subst n; nia).
  replace ((v + constant) * n) with (n * v + constant * n) by lia.
  destruct (Z.ltb_spec 0 constant);
    destruct (Z.ltb_spec (n * v) (n * v + constant * n));
    try reflexivity; nia.
Qed.

(** The three colour channels of a thresholded pixel agree. *)
Lemma threshold_colour_channels x y c :
  0 <= x < width -> 0 <= y < height -> 0 <= c < 3 ->
  channel once width x y c = channel once width x y 0.
Proof.
  intros Hx Hy Hc.
  rewrite !applyAdaptiveThreshold_channel by (assumption || lia).
  destruct (Z.ltb_spec c 3); [reflexivity | lia].
Qed.

End Twice.

Section Idempotence.

Variables (data : list Z) (width height windowSize constant : Z).
Hypothesis Hwf : wellFormed data width height.
Hypothesis Hbytes : bytes data.
Hypothesis Hfits : width * height * 255 < 2 ^ 31.
Hypothesis Hwindow : 0 <= windowSize.

Local Abbreviation once :=
  (applyAdaptiveThreshold data width height windowSize constant).
Local Abbreviation twice :=
  (applyAdaptiveThreshold once width height windowSize constant).

Local Abbreviation once_wf :=
  (threshold_wellFormed data width height windowSize constant Hwf).
Local Abbreviation once_bytes :=
  (threshold_bytes data width height windowSize constant Hwf).

Lemma twice_uniform v :
  (forall x y, 0 <= x < width -> 0 <= y < height ->
     intensity data width x y = v) ->
  twice = once.
Proof.
  intros Hv.
  pose proof (threshold_uniform data width height windowSize constant
                Hwf Hbytes Hfits Hwindow v) as Honce.
  assert (Hv' : forall x y, 0 <= x < width -> 0 <= y < height ->
            intensity once width x y = if 0 <? constant then 255 else 0).
  { intros x y Hx Hy.
    pose proof (intensity_channel once width height x y once_wf Hx Hy) as Hi.
    rewrite (Honce x y 0 Hv Hx Hy) in Hi by lia. congruence. }
  pose proof (threshold_uniform once width height windowSize constant
                once_wf once_bytes Hfits Hwindow
                (if 0 <? constant then 255 else 0)) as Htwice.
  destruct once_wf as (Hw & Hh & Hlen).
  apply read_ext.
  - apply length_applyAdaptiveThreshold. exact Hw.
  - intros i Hi.
    assert (Hlen2 : length twice = length once)
      by (apply length_applyAdaptiveThreshold; exact Hw).
    destruct (channel_decompose width height i Hw ltac:(lia))
      as (x & y & c & Hx & Hy & Hc & ->).
    destruct (Z.eq_dec c 3) as [-> | Hc3].
    + pose proof (threshold_alpha data width height windowSize constant
                    Hwf x y Hx Hy) as H1.
      pose proof (threshold_alpha once width height windowSize constant
                    once_wf x y Hx Hy) as H2.
      unfold channel in H1, H2.
      congruence.
    + pose proof (Honce x y c Hv Hx Hy ltac:(lia)) as H1.
      pose proof (Htwice x y c Hv' Hx Hy ltac:(lia)) as H2.
      unfold channel in H1, H2. congruence.
Qed.

Lemma twice_white_stays x y c :
  0 < constant ->
  0 <= x < width -> 0 <= y < height -> 0 <= c < 3 ->
  channel once width x y 0 = Some 255 ->
  channel twice width x y c = Some 255.
Proof.
  intros Hk Hx Hy Hc Hwhite.
  destruct (window width height (windowSize / 2) x y)
    as [[[x1 y1] x2] y2] eqn:Hwin.
  assert (Hhalf : 0 <= windowSize / 2) by (apply Z.div_pos; lia).
  destruct (window_inside _ _ _ _ _ _ _ _ _ Hhalf Hx Hy Hwin)
    as (Hx1 & Hx2 & Hy1 & Hy2).
  rewrite (threshold_channel_exact once width height windowSize constant
             once_wf once_bytes Hfits Hwindow x y c x1 y1 x2 y2) by assumption.
  pose proof (intensity_channel once width height x y once_wf Hx Hy) as Hi.
  rewrite Hwhite in Hi. injection Hi as <-.
  pose proof (rectSum_bounds once width once_bytes x1 y1 x2 y2
                ltac:(lia) ltac:(lia)) as Hb.
  f_equal.
  set (n := (x2 - x1 + 1) * (y2 - y1 + 1)) in *.
  assert (Hn : 0 < n) by (subst n; nia).
  destruct (Z.ltb_spec (rectSum once width x1 y1 x2 y2) ((255 + constant) * n));
    [reflexivity | nia].
Qed.

Lemma twice_black_stays x y c :
  constant <= 0 ->
  0 <= x < width -> 0 <= y < height -> 0 <= c < 3 ->
  channel once width x y 0 = Some 0 ->
  channel twice width x y c = Some 0.
Proof.
  intros Hk Hx Hy Hc Hblack.
  destruct (window width height (windowSize / 2) x y)
    as [[[x1 y1] x2] y2] eqn:Hwin.
  assert (Hhalf : 0 <= windowSize / 2) by (apply Z.div_pos; lia).
  destruct (window_inside _ _ _ _ _ _ _ _ _ Hhalf Hx Hy Hwin)
    as (Hx1 & Hx2 & Hy1 & Hy2).
  rewrite (threshold_channel_exact once width height windowSize constant
             once_wf once_bytes Hfits Hwindow x y c x1 y1 x2 y2) by assumption.
  pose proof (intensity_channel once width height x y once_wf Hx Hy) as Hi.
  rewrite Hblack in Hi. injection Hi as <-.
  pose proof (rectSum_bounds once width once_bytes x1 y1 x2 y2
                ltac:(lia) ltac:(lia)) as Hb.
  f_equal.
  set (n := (x2 - x1 + 1) * (y2 - y1 + 1)) in *.
  assert (Hn : 0 < n) by (subst n; nia).
  destruct (Z.ltb_spec (rectSum once width x1 y1 x2 y2) ((0 + constant) * n));
    [nia | reflexivity].
Qed.

End Idempotence.

Lemma gray128_wellFormed : wellFormed gray128 3 3.
Proof. unfold wellFormed. split; [lia | split; [lia | reflexivity]]. Qed.

Lemma gray128_bytes : bytes gray128.
Proof.
  unfold bytes, gray128, solid. cbn [replicate List.concat app].
  repeat (constructor; [lia |]). constructor.
Qed.

Lemma gray128_intensity x y :
  0 <= x < 3 -> 0 <= y < 3 -> intensity gray128 3 x y = 128.
Proof.
  intros Hx Hy.
  assert (x = 0 \/ x = 1 \/ x = 2) as [-> | [-> | ->]] by lia;
    assert (y = 0 \/ y = 1 \/ y = 2) as [-> | [-> | ->]] by lia;
    reflexivity.
Qed.

(** C5 (as stated, refuted): on the 3 by 1 buffer of intensities 0, 20, 70,
    with window 3 and constant 10, the first run gives black, black, white
    and the second run gives white, black, white. *)
Lemma binarization_not_idempotent :
  wellFormed [0;0;0;255; 20;20;20;255; 70;70;70;255] 3 1 /\
  applyAdaptiveThreshold [0;0;0;255; 20;20;20;255; 70;70;70;255] 3 1 3 10
  = [0;0;0;255; 0;0;0;255; 255;255;255;255] /\
  applyAdaptiveThreshold
    (applyAdaptiveThreshold [0;0;0;255; 20;20;20;255; 70;70;70;255] 3 1 3 10)
    3 1 3 10
  = [255;255;255;255; 0;0;0;255; 255;255;255;255] /\
  applyAdaptiveThreshold
    (applyAdaptiveThreshold [0;0;0;255; 20;20;20;255; 70;70;70;255] 3 1 3 10)
    3 1 3 10
  <> applyAdaptiveThreshold [0;0;0;255; 20;20;20;255; 70;70;70;255] 3 1 3 10.
Proof.
  split; [unfold wellFormed; split; [lia | split; [lia | reflexivity]] |].
  split; [vm_compute; reflexivity |].
  split; [vm_compute; reflexivity |].
  vm_compute. discriminate.
Qed.

(** C5 (amended): for every well-formed buffer whose total intensity fits
    32 bits and every window size that is not negative, running
    applyAdaptiveThreshold on its own output with the same configuration
    (1) reproduces that output exactly when all pixels of the input have the
    same intensity, (2) keeps every white pixel white when the constant is
    positive, and (3) keeps every black pixel black when the constant is
    zero or negative. *)
Theorem binarization_twice data width height windowSize constant :
  wellFormed data width height -> bytes data ->
  width * height * 255 < 2 ^ 31 -> 0 <= windowSize ->
  let once := applyAdaptiveThreshold data width height windowSize constant in
  let twice := applyAdaptiveThreshold once width height windowSize constant in
  ((exists v, forall x y, 0 <= x < width -> 0 <= y < height ->
      intensity data width x y = v) -> twice = once) /\
  (0 < constant -> forall x y c,
     0 <= x < width -> 0 <= y < height -> 0 <= c < 3 ->
     channel once width x y 0 = Some 255 ->
     channel twice width x y c = Some 255) /\
  (constant <= 0 -> forall x y c,
     0 <= x < width -> 0 <= y < height -> 0 <= c < 3 ->
     channel once width x y 0 = Some 0 ->
     channel twice width x y c = Some 0).
Proof.
  intros Hwf Hbytes Hfits Hwindow once twice. split; [| split].
  - intros [v Hv]. subst once twice.
    apply (twice_uniform data width height windowSize constant
             Hwf Hbytes Hfits Hwindow v Hv).
  - intros Hk x y c Hx Hy Hc. subst once twice.
    apply (twice_white_stays data width height windowSize constant
             Hwf Hfits Hwindow x y c Hk Hx Hy Hc).
  - intros Hk x y c Hx Hy Hc. subst once twice.
    apply (twice_black_stays data width height windowSize constant
             Hwf Hfits Hwindow x y c Hk Hx Hy Hc).
Qed.

Lemma binarization_twice_witness :
  applyAdaptiveThreshold (applyAdaptiveThreshold gray128 3 3 3 10) 3 3 3 10
  = applyAdaptiveThreshold gray128 3 3 3 10.
Proof.
  apply (proj1 (binarization_twice gray128 3 3 3 10
                  gray128_wellFormed gray128_bytes ltac:(lia) ltac:(lia))).
  exists 128. exact gray128_intensity.
Defined.

(** ** Grayscale conversion *)

Lemma floorUpTo_range n f : 0 <= Luma.floorUpTo n f <= Z.of_nat n.
Proof.
  induction n as [| n IH]; [simpl; lia |].
  cbn [Luma.floorUpTo]. destruct (_ <=? _)%float; lia.
Qed.

Lemma toUint8Clamp_byte f : 0 <= Luma.toUint8Clamp f <= 255.
Proof.
  unfold Luma.toUint8Clamp.
  pose proof (floorUpTo_range 254 f) as Hfl.
  repeat match goal with
         | |- context [if ?b then _ else _] => destruct b
         end; lia.
Qed.

Section Grayscale.

Variables (data : list Z) (n : Z).
Hypothesis Hlen : Z.of_nat (length data) = 4 * n.

Lemma grayscalePixel_inv k st :
  0 <= k < n ->
  grayscaleInv data k st ->
  grayscaleInv data (k + 1) (grayscalePixel st (4 * k)).
Proof.
  intros Hk (Hl & Hdone & Hrest).
  assert (Hr : forall c, 0 <= c < 4 -> read st (4 * k + c) = read data (4 * k + c)).
  { intros c Hc. apply Hrest. intros p c' Hp Hc'. lia. }
  assert (Hpix : grayscalePixel st (4 * k)
                 = write (write (write st (4 * k + 2) (luminanceByte data k))
                            (4 * k + 1) (luminanceByte data k))
                     (4 * k) (luminanceByte data k)).
  { unfold grayscalePixel, luminanceByte. cbv zeta.
    rewrite <- (Hr 1), <- (Hr 2) by lia.
    pose proof (Hr 0 ltac:(lia)) as H0. rewrite Z.add_0_r in H0.
    rewrite <- H0. reflexivity. }
  rewrite Hpix. clear Hpix.
  remember (luminanceByte data k) as L eqn:HL.
  split; [| split].
  - rewrite !length_write. exact Hl.
  - intros p c Hp Hc.
    destruct (Z.eq_dec p k) as [-> | Hne].
    + rewrite <- HL.
      assert (c = 0 \/ c = 1 \/ c = 2) as [-> | [-> | ->]] by lia.
      * rewrite Z.add_0_r. apply read_write_eq. rewrite !length_write. lia.
      * rewrite read_write_ne by lia.
        apply read_write_eq. rewrite !length_write. lia.
      * rewrite !read_write_ne by lia.
        apply read_write_eq. lia.
    + rewrite !read_write_ne by lia. apply Hdone; lia.
  - intros j Hj.
    pose proof (Hj k 0 ltac:(lia) ltac:(lia)).
    pose proof (Hj k 1 ltac:(lia) ltac:(lia)).
    pose proof (Hj k 2 ltac:(lia) ltac:(lia)).
    rewrite !read_write_ne by lia.
    apply Hrest. intros p c Hp Hc. apply Hj; lia.
Qed.

Lemma grayscaleLoop_inv : grayscaleInv data n (grayscaleLoop data).
Proof.
  unfold grayscaleLoop, pixelOffsets. rewrite fold_left_mapped.
  replace ((Z.of_nat (length data) + 3) / 4) with n
    by (rewrite Hlen; apply Z.div_unique with 3; lia).
  apply (fold_range_inv (grayscaleInv data)
           (fun st k => grayscalePixel st (4 * k))); [lia | |].
  - split; [reflexivity | split].
    + intros p c Hp. lia.
    + intros j _. reflexivity.
  - intros k st Hk. apply grayscalePixel_inv. exact Hk.
Qed.

End Grayscale.

Lemma grayscaleLoop_bytes data n :
  Z.of_nat (length data) = 4 * n -> bytes data -> bytes (grayscaleLoop data).
Proof.
  intros Hlen Hb.
  destruct (grayscaleLoop_inv data n Hlen) as (Hl & Hdone & Hrest).
  unfold bytes. apply List.Forall_forall. intros v Hv.
  apply list_elem_of_In, list_elem_of_lookup in Hv. destruct Hv as [i Hi].
  assert (Hrd : read (grayscaleLoop data) (Z.of_nat i) = Some v).
  { unfold read. destruct (Z.ltb_spec (Z.of_nat i) 0); [lia |].
    rewrite Nat2Z.id. exact Hi. }
  set (j := Z.of_nat i) in *.
  destruct (Z.eq_dec (j mod 4) 3) as [Ha | Hc].
  - rewrite Hrest in Hrd; [eapply read_bytes; eassumption |].
    intros p c Hp Hcc Heq. subst j. rewrite Heq in Ha.
    rewrite Z.add_comm, Z.mul_comm, Z.mod_add in Ha by lia.
    rewrite Z.mod_small in Ha; lia.
  - pose proof (Z.div_mod j 4 ltac:(lia)) as Hdm.
    pose proof (Z.mod_pos_bound j 4 ltac:(lia)) as Hm.
    pose proof (read_Some_bound _ _ _ Hrd) as Hbound.
    rewrite Hl, Hlen in Hbound.
    rewrite Hdm, (Hdone (j / 4) (j mod 4)) in Hrd by lia.
    injection Hrd as <-. apply toUint8Clamp_byte.
Qed.



(** ** The median filter *)

Lemma insertSorted_perm v l : Permutation (insertSorted v l) (v :: l).
Proof.
  induction l as [| h t IH]; simpl; [reflexivity |].
  destruct (v <=? h); [reflexivity |].
  rewrite IH. apply perm_swap.
Qed.

Lemma sortNumbers_perm l : Permutation (sortNumbers l) l.
Proof.
  induction l as [| h t IH]; simpl; [reflexivity |].
  rewrite insertSorted_perm. apply perm_skip. exact IH.
Qed.

Lemma insertSorted_sorted v l :
  Sorted Z.le l -> Sorted Z.le (insertSorted v l).
Proof.
  induction l as [| h t IH]; intros Hs; simpl.
  - repeat constructor.
  - destruct (Z.leb_spec v h) as [Hle | Hgt].
    + constructor; [exact Hs |]. constructor. exact Hle.
    + apply Sorted_inv in Hs. destruct Hs as [Hst Hhd].
      constructor; [apply IH; exact Hst |].
      destruct t as [| h' t']; simpl.
      * constructor. lia.
      * destruct (v <=? h'); constructor; [lia |].
        apply HdRel_inv in Hhd. exact Hhd.
Qed.

Lemma sortNumbers_sorted l : Sorted Z.le (sortNumbers l).
Proof.
  induction l as [| h t IH]; simpl; [constructor |].
  apply insertSorted_sorted. exact IH.
Qed.

Lemma sortNumbers_length l : length (sortNumbers l) = length l.
Proof. apply Permutation_length, sortNumbers_perm. Qed.

Lemma omap_id_Some (l : list Z) : omap id (map Some l) = l.
Proof.
  induction l as [| h t IH]; [reflexivity |].
  change (h :: omap id (map Some t) = h :: t). f_equal. exact IH.
Qed.

Lemma lookup_map_Some (l : list Z) (i : nat) :
  (i < length l)%nat -> (map Some l) !! i = Some (Some (nth i l 0)).
Proof.
  revert i. induction l as [| h t IH]; intros i Hi; simpl in Hi; [lia |].
  destruct i as [| i]; simpl; [reflexivity |]. apply IH. lia.
Qed.

Lemma sortArray_defined (l : list Z) :
  sortArray (map Some l) = map Some (sortNumbers l).
Proof.
  unfold sortArray. rewrite omap_id_Some, length_map, Nat.sub_diag.
  apply app_nil_r.
Qed.

Lemma neighborhood_length data width x y :
  length (neighborhood data width x y) = 9%nat.
Proof. reflexivity. Qed.

Section MedianLoop.

Variables (copy : list Z) (width : Z).

Local Abbreviation cell :=
  (medianCell copy width).

Lemma medianCell_length y st x : length (cell y st x) = length st.
Proof. unfold medianCell. rewrite !length_write. reflexivity. Qed.

Lemma medianCell_other y st x j :
  (forall c, 0 <= c < 4 -> j <> (y * width + x) * 4 + c) ->
  read (cell y st x) j = read st j.
Proof.
  intros Hj. unfold medianCell.
  pose proof (Hj 0). pose proof (Hj 1). pose proof (Hj 2).
  rewrite !read_write_ne by lia. reflexivity.
Qed.

Lemma medianCell_own y st x c :
  0 <= c < 4 ->
  read (cell y st x) ((y * width + x) * 4 + c)
  = medianWrite copy width x y c (read st ((y * width + x) * 4 + c)).
Proof.
  intros Hc. unfold medianCell, medianWrite. cbv zeta.
  remember (Num.toUint8Clamp (median copy width x y)) as m eqn:Hm.
  channel_cases c Hc; read_writes; cbn [Z.ltb Z.compare]; try reflexivity.
  all: rewrite Z.add_0_r; reflexivity.
Qed.

End MedianLoop.

Section Median.

Variables (data : list Z) (width height : Z).
Hypothesis Hwf : wellFormed data width height.
Hypothesis Hbytes : bytes data.

Lemma neighbors_inside x y :
  1 <= x < width - 1 -> 1 <= y < height - 1 ->
  neighbors data width x y = map Some (neighborhood data width x y).
Proof.
  intros Hx Hy. unfold neighbors, neighborhood. cbn [flat_map map app].
  rewrite !(read_intensity data width height Hwf) by lia. reflexivity.
Qed.

Lemma median_inside x y :
  1 <= x < width - 1 -> 1 <= y < height - 1 ->
  Num.toUint8Clamp (median data width x y)
  = nth 4 (sortNumbers (neighborhood data width x y)) 0.
Proof.
  intros Hx Hy. unfold median.
  rewrite neighbors_inside by assumption.
  rewrite sortArray_defined.
  rewrite lookup_map_Some
    by (rewrite sortNumbers_length, neighborhood_length; lia).
  cbn [mjoin option_join option_bind mbind Num.toUint8Clamp].
  assert (Hin : In (nth 4 (sortNumbers (neighborhood data width x y)) 0)
                  (neighborhood data width x y)).
  { eapply Permutation_in; [apply sortNumbers_perm |].
    apply nth_In. rewrite sortNumbers_length, neighborhood_length. lia. }
  assert (Hb : forall v, In v (neighborhood data width x y) -> 0 <= v <= 255).
  { intros v Hv. unfold neighborhood in Hv. cbn [flat_map map app] in Hv.
    cbn [In] in Hv.
    repeat (destruct Hv as [<- | Hv];
            [apply (intensity_byte data width Hbytes) |]).
    contradiction. }
  specialize (Hb _ Hin). lia.
Qed.

Local Abbreviation out :=
  (applyMedianFilter data width height).

Lemma applyMedianFilter_loop :
  length out = length data /\
  (forall x y c, 1 <= x < width - 1 -> 1 <= y < height - 1 -> 0 <= c < 4 ->
     read out ((y * width + x) * 4 + c)
     = medianWrite data width x y c (read data ((y * width + x) * 4 + c))) /\
  (forall j,
     (forall x y c, 1 <= x < width - 1 -> 1 <= y < height - 1 -> 0 <= c < 4 ->
        j <> (y * width + x) * 4 + c) ->
     read out j = read data j).
Proof.
  unfold applyMedianFilter. cbv zeta.
  apply (pixel_loop (medianCell data width) (medianWrite data width)
           data width 1 (width - 1) 1 (height - 1) ltac:(lia) ltac:(lia)
           (medianCell_length data width)
           (medianCell_other data width)
           (fun y st x c _ _ Hc => medianCell_own data width y st x c Hc)).
Qed.

Lemma median_border x y c :
  0 <= x < width -> 0 <= y < height -> 0 <= c < 4 ->
  x = 0 \/ x = width - 1 \/ y = 0 \/ y = height - 1 ->
  channel out width x y c = channel data width x y c.
Proof.
  intros Hx Hy Hc Hborder. unfold channel.
  destruct applyMedianFilter_loop as (_ & _ & Hrest).
  apply Hrest. intros x' y' c' Hx' Hy' Hc' Heq.
  destruct (channel_inj width x y c x' y' c') as (-> & -> & _);
    [lia | lia | lia | lia | exact Heq | lia].
Qed.

Lemma median_alpha x y :
  0 <= x < width -> 0 <= y < height ->
  channel out width x y 3 = channel data width x y 3.
Proof.
  intros Hx Hy.
  destruct (Z.eq_dec x 0) as [Hx0 | Hx0];
    [apply median_border; lia |].
  destruct (Z.eq_dec x (width - 1)) as [Hx1 | Hx1];
    [apply median_border; lia |].
  destruct (Z.eq_dec y 0) as [Hy0 | Hy0];
    [apply median_border; lia |].
  destruct (Z.eq_dec y (height - 1)) as [Hy1 | Hy1];
    [apply median_border; lia |].
  unfold channel.
  destruct applyMedianFilter_loop as (_ & Hown & _).
  rewrite Hown by lia. reflexivity.
Qed.

Lemma median_interior x y c :
  1 <= x < width - 1 -> 1 <= y < height - 1 -> 0 <= c < 3 ->
  channel out width x y c
  = Some (nth 4 (sortNumbers (neighborhood data width x y)) 0).
Proof.
  intros Hx Hy Hc. unfold channel.
  destruct applyMedianFilter_loop as (_ & Hown & _).
  rewrite Hown by lia. unfold medianWrite.
  destruct (Z.ltb_spec c 3); [| lia].
  destruct Hwf as (_ & _ & Hlen).
  pose proof (index_bound width height x y ltac:(lia) ltac:(lia)) as Hi.
  destruct (read_is_Some data ((y * width + x) * 4 + c) ltac:(lia)) as [v Hv].
  rewrite Hv. cbn [fmap option_fmap option_map].
  rewrite median_inside by assumption. reflexivity.
Qed.

End Median.

(** C7: for every well-formed buffer, applyMedianFilter keeps the length,
    leaves all four channels of every pixel of the outermost one-pixel ring
    unchanged, leaves the opacity channel of every pixel unchanged, and
    writes into the three colour channels of every interior pixel the 5th
    (index 4) of the 9 intensities of its 3 by 3 neighbourhood in the
    original buffer, sorted in ascending order. *)
Theorem median_filter_frame data width height :
  wellFormed data width height -> bytes data ->
  let out := applyMedianFilter data width height in
  length out = length data /\
  (forall x y c, 0 <= x < width -> 0 <= y < height -> 0 <= c < 4 ->
     x = 0 \/ x = width - 1 \/ y = 0 \/ y = height - 1 ->
     channel out width x y c = channel data width x y c) /\
  (forall x y, 0 <= x < width -> 0 <= y < height ->
     channel out width x y 3 = channel data width x y 3) /\
  (forall x y c, 1 <= x < width - 1 -> 1 <= y < height - 1 -> 0 <= c < 3 ->
     channel out width x y c
     = Some (nth 4 (sortNumbers (neighborhood data width x y)) 0)) /\
  (forall x y,
     length (sortNumbers (neighborhood data width x y)) = 9%nat /\
     Permutation (sortNumbers (neighborhood data width x y))
       (neighborhood data width x y) /\
     Sorted Z.le (sortNumbers (neighborhood data width x y))).
Proof.
  intros Hwf Hbytes out. subst out.
  split; [apply (applyMedianFilter_loop data width height) |].
  split; [intros x y c; apply (median_border data width height) |].
  split; [intros x y; apply (median_alpha data width height) |].
  split; [intros x y c; apply (median_interior data width height Hwf Hbytes) |].
  intros x y. split; [| split].
  - rewrite sortNumbers_length. apply neighborhood_length.
  - apply sortNumbers_perm.
  - apply sortNumbers_sorted.
Qed.

Lemma speckle_wellFormed : wellFormed speckle 3 3.
Proof. unfold wellFormed. split; [lia | split; [lia | reflexivity]]. Qed.

Lemma speckle_bytes : bytes speckle.
Proof.
  unfold bytes, speckle. repeat (constructor; [lia |]). constructor.
Qed.

Lemma median_filter_frame_witness :
  channel (applyMedianFilter speckle 3 3) 3 1 1 0
  = Some (nth 4 (sortNumbers (neighborhood speckle 3 1 1)) 0) /\
  channel (applyMedianFilter speckle 3 3) 3 1 1 3 = channel speckle 3 1 1 3 /\
  channel (applyMedianFilter speckle 3 3) 3 0 2 0 = channel speckle 3 0 2 0.
Proof.
  pose proof (median_filter_frame speckle 3 3 speckle_wellFormed speckle_bytes)
    as (_ & Hborder & Halpha & Hinterior & _).
  split; [apply Hinterior; lia |].
  split; [apply Halpha; lia |].
  apply Hborder; lia.
Defined.

(** ** The orchestrator *)

(** C4 (as stated, refuted): with upscaling enabled an 1800 by 900 image is
    drawn on a canvas of 3600 by 1800, its height being below the floor. *)
Lemma upscale_1800x900_doubles :
  truthy (upscale (resolveConfig None)) = true /\
  canvasSize (resolveConfig None) 1800 900 = (3600, 1800) /\
  canvasSize (resolveConfig None) 1800 900 <> (1800, 900).
Proof.
  split; [reflexivity |]. split; [reflexivity |].
  vm_compute. discriminate.
Qed.

(** C4 (amended): with upscale enabled, if either decoded dimension is
    below 1500 then both dimensions are doubled, and an image with both
    dimensions at least 1500 keeps its dimensions; the pixel stages run on
    the data drawn at that canvas size; in particular a 100 by 100 input
    gives 200 by 200, an 1800 by 900 input gives 3600 by 1800, and an 1800
    by 1500 input keeps its dimensions. *)
Theorem upscale_below_floor config :
  truthy (upscale config) = true ->
  (forall width height, width < 1500 \/ height < 1500 ->
     canvasSize config width height = (width * 2, height * 2)) /\
  (forall width height, 1500 <= width -> 1500 <= height ->
     canvasSize config width height = (width, height)) /\
  canvasSize config 100 100 = (200, 200) /\
  canvasSize config 1800 900 = (3600, 1800) /\
  canvasSize config 1800 1500 = (1800, 1500) /\
  (forall br file options img width height,
     resolveConfig options = config ->
     loadImage br file = Some img ->
     canvasSize config (img_width img) (img_height img) = (width, height) ->
     getContext2d br width height = true ->
     preprocessImage br file options
     = match toDataURL br width height
               (processPixels config (drawAndRead br file width height)
                  width height) with
       | Some processedUrl => Resolved processedUrl
       | None => Pending
       end).
Proof.
  intros Hup. unfold canvasSize. rewrite Hup. cbn [andb].
  split; [| split; [| split; [| split; [| split]]]];
    try reflexivity.
  - intros width height Hlow.
    destruct (Z.ltb_spec width 1500), (Z.ltb_spec height 1500);
      try reflexivity; lia.
  - intros width height Hw Hh.
    destruct (Z.ltb_spec width 1500), (Z.ltb_spec height 1500);
      try reflexivity; lia.
  - intros br file options img width height Hcfg Himg Hsize Hctx.
    unfold preprocessImage. rewrite Hcfg, Himg.
    unfold canvasSize. rewrite Hup. cbn [andb].
    rewrite Hsize, Hctx. reflexivity.
Qed.

Lemma upscale_below_floor_witness :
  canvasSize (resolveConfig None) 100 100 = (200, 200) /\
  canvasSize (resolveConfig None) 1499 5000 = (1499 * 2, 5000 * 2).
Proof.
  pose proof (upscale_below_floor (resolveConfig None) eq_refl)
    as (Hlow & _ & H100 & _).
  split; [exact H100 | apply Hlow; lia].
Defined.
(** ** Configuration, failures and defaults of the orchestrator *)

Lemma truthy_spread_true f : truthy (spread true f) = onByDefault f.
Proof. destruct f as [| | []]; reflexivity. Qed.

Lemma truthy_spread_false f : truthy (spread false f) = truthy f.
Proof. destruct f as [| | []]; reflexivity. Qed.

Lemma spread_spread dflt f : spread dflt (spread dflt f) = spread dflt f.
Proof. destruct f; reflexivity. Qed.

Lemma resolveConfig_idempotent options :
  resolveConfig (Some (resolveConfig options)) = resolveConfig options.
Proof.
  unfold resolveConfig. simpl. rewrite !spread_spread. reflexivity.
Qed.







(** C9 (defect): when the file loads but the canvas cannot be
    serialized, [handleFile] does not fall back to the original file, as it
    does when the file cannot be loaded.  When [toDataURL] returns the empty
    data URL, by which a failed serialization is reported, that URL is
    handed to the recognition engine as the processed image; when the call
    throws, the promise of [preprocessImage] never settles and nothing is
    handed on. *)
Theorem encode_failure_not_fail_open :
  preprocessImage emptyEncoderBrowser [1; 2; 3] (Some handleFile_options)
  = Resolved "data:," /\
  handleFile emptyEncoderBrowser true [1; 2; 3] = Some (ProcessedUrl "data:,") /\
  handleFile emptyEncoderBrowser true [1; 2; 3]
  <> Some (OriginalFile [1; 2; 3]) /\
  preprocessImage brokenEncoderBrowser [1; 2; 3] (Some handleFile_options)
  = Pending /\
  handleFile brokenEncoderBrowser true [1; 2; 3] = None /\
  handleFile brokenEncoderBrowser true [1; 2; 3]
  <> Some (OriginalFile [1; 2; 3]) /\
  handleFile brokenFileBrowser true [1; 2; 3] = Some (OriginalFile [1; 2; 3]).
Proof.
  split; [vm_compute; reflexivity |].
  split; [vm_compute; reflexivity |].
  split; [vm_compute; discriminate |].
  split; [vm_compute; reflexivity |].
  split; [vm_compute; reflexivity |].
  split; [vm_compute; discriminate |].
  vm_compute; reflexivity.
Qed.

(** C10: with the options argument omitted the configuration is
    grayscale=true, binarize=true, denoise=false, upscale=true, and every
    field missing from a given options object takes that default, so that
    calling with fields left out is calling with the defaults written out;
    the median stage runs exactly when denoise is explicitly true; the
    grayscale stage runs whenever binarize is enabled, also with grayscale
    explicitly false.  For a loaded image the promise of preprocessImage
    resolves with the serialization of the pixels drawn on the canvas and
    passed through exactly these stages, in this order: the grayscale loop
    when grayscale or binarize is on, the median filter when denoise is
    explicitly true, the adaptive threshold with window 41 and constant 15
    when binarize is on (the dimensions of an image are never negative). *)
Theorem option_defaults :
  resolveConfig None
  = {| grayscale := Bool true; binarize := Bool true;
       denoise := Bool false; upscale := Bool true; others := [] |} /\
  (forall o,
     (grayscale o = Missing -> grayscale (resolveConfig (Some o)) = Bool true) /\
     (binarize o = Missing -> binarize (resolveConfig (Some o)) = Bool true) /\
     (denoise o = Missing -> denoise (resolveConfig (Some o)) = Bool false) /\
     (upscale o = Missing -> upscale (resolveConfig (Some o)) = Bool true)) /\
  runsDenoise (resolveConfig None) = false /\
  (forall o, runsDenoise (resolveConfig (Some o)) = true
             <-> denoise o = Bool true) /\
  (forall config data width height,
     runsDenoise config = false ->
     processPixels config data width height
     = let data := if runsGrayscale config then grayscaleLoop data else data in
       if runsBinarize config
       then applyAdaptiveThreshold data width height 41 15
       else data) /\
  (forall options,
     runsBinarize (resolveConfig options) = true ->
     runsGrayscale (resolveConfig options) = true) /\
  (forall o, binarize o = Bool true -> grayscale o = Bool false ->
     runsGrayscale (resolveConfig (Some o)) = true) /\
  (forall config data width height,
     runsBinarize config = true ->
     processPixels config data width height
     = applyAdaptiveThreshold
         (if runsDenoise config
          then applyMedianFilter (grayscaleLoop data) width height
          else grayscaleLoop data)
         width height 41 15) /\
  (forall br file,
     preprocessImage br file None = preprocessImage br file (Some emptyOptions)) /\
  (forall br file options,
     preprocessImage br file options
     = preprocessImage br file (Some (resolveConfig options))) /\
  (forall o width height,
     canvasSize (resolveConfig (Some o)) width height
     = if onByDefault (upscale o) && ((width <? 1500) || (height <? 1500))
       then (width * 2, height * 2)
       else (width, height)) /\
  (forall br file o img width height,
     loadImage br file = Some img ->
     0 <= img_width img -> 0 <= img_height img ->
     canvasSize (resolveConfig (Some o)) (img_width img) (img_height img)
     = (width, height) ->
     getContext2d br width height = true ->
     let drawn := drawAndRead br file width height in
     let gray := if onByDefault (grayscale o) || onByDefault (binarize o)
                 then grayscaleLoop drawn else drawn in
     let denoised := if truthy (denoise o)
                     then applyMedianFilter gray width height else gray in
     let binary := if onByDefault (binarize o)
                   then applyAdaptiveThreshold denoised width height 41 15
                   else denoised in
     preprocessImage br file (Some o)
     = match toDataURL br width height binary with
       | Some processedUrl => Resolved processedUrl
       | None => Pending
       end).
Proof.
  split; [reflexivity |].
  split.
  { intros o. unfold resolveConfig. cbn.
    repeat split; intros ->; reflexivity. }
  split; [reflexivity |].
  split.
  { intros o. unfold runsDenoise, resolveConfig. cbn.
    destruct (denoise o) as [| | [|]]; cbn; split; congruence. }
  split.
  { intros config data width height Hden. unfold processPixels.
    rewrite Hden. reflexivity. }
  split.
  { intros options Hbin. unfold runsGrayscale. unfold runsBinarize in Hbin.
    rewrite Hbin. apply orb_true_r. }
  split.
  { intros o Hbin Hgray. unfold runsGrayscale, resolveConfig. cbn.
    rewrite Hbin, Hgray. reflexivity. }
  split.
  { intros config data width height Hbin. unfold processPixels.
    assert (Hgray : runsGrayscale config = true).
    { unfold runsGrayscale. unfold runsBinarize in Hbin.
      rewrite Hbin. apply orb_true_r. }
    rewrite Hbin, Hgray. destruct (runsDenoise config); reflexivity. }
  split; [reflexivity |].
  split.
  { intros br file options. unfold preprocessImage.
    rewrite resolveConfig_idempotent. reflexivity. }
  split.
  { intros o width height. unfold canvasSize, resolveConfig.
    cbn [default upscale]. rewrite truthy_spread_true. reflexivity. }
  intros br file o img width height Himg _ _ Hsize Hctx
    drawn gray denoised binary.
  subst binary denoised gray drawn.
  unfold preprocessImage. rewrite Himg, Hsize, Hctx. cbn [negb].
  unfold processPixels, runsGrayscale, runsDenoise, runsBinarize, resolveConfig.
  cbn [default grayscale binarize denoise].
  rewrite !truthy_spread_true, truthy_spread_false.
  reflexivity.
Qed.

Lemma option_defaults_witness :
  runsGrayscale
    (resolveConfig
       (Some {| grayscale := Bool false; binarize := Bool true;
                denoise := Missing; upscale := Missing; others := [] |}))
  = true /\
  denoise
    (resolveConfig
       (Some {| grayscale := Bool false; binarize := Bool true;
                denoise := Missing; upscale := Missing; others := [] |}))
  = Bool false /\
  preprocessImage paperBrowser [1; 2; 3]
    (Some {| grayscale := Bool false; binarize := Missing;
             denoise := Missing; upscale := Bool false; others := [] |})
  = Resolved "data:WWWWBWWWW" /\
  preprocessImage paperBrowser [1; 2; 3]
    (Some {| grayscale := Bool false; binarize := Missing;
             denoise := Bool true; upscale := Bool false; others := [] |})
  = Resolved "data:WWWWWWWWW".
Proof.
  pose proof option_defaults
    as (_ & Hdefault & _ & _ & _ & _ & Hgray & _ & _ & _ & _ & Hstages).
  split; [apply Hgray; reflexivity |].
  split.
  - apply (Hdefault
             {| grayscale := Bool false; binarize := Bool true;
                denoise := Missing; upscale := Missing; others := [] |}).
    reflexivity.
  - split.
    + etransitivity.
      * exact (Hstages paperBrowser [1; 2; 3]
                 {| grayscale := Bool false; binarize := Missing;
                    denoise := Missing; upscale := Bool false;
                    others := [] |}
                 {| img_width := 3; img_height := 3 |} 3 3
                 eq_refl ltac:(cbn; lia) ltac:(cbn; lia) eq_refl eq_refl).
      * vm_compute. reflexivity.
    + etransitivity.
      * exact (Hstages paperBrowser [1; 2; 3]
                 {| grayscale := Bool false; binarize := Missing;
                    denoise := Bool true; upscale := Bool false;
                    others := [] |}
                 {| img_width := 3; img_height := 3 |} 3 3
                 eq_refl ltac:(cbn; lia) ltac:(cbn; lia) eq_refl eq_refl).
      * vm_compute. reflexivity.
Defined.

(** * Further properties of the pixel stages *)

(** ** The integral image *)

(** For every well-formed buffer, of any size, the table has one cell per
    pixel and the cell of [(x,y)] holds the sum of the first channels over
    the rectangle from [(0,0)] to [(x,y)], reduced modulo [2^32] into the
    signed 32-bit range. *)
Theorem integral_image_modulo data width height x y :
  wellFormed data width height ->
  0 <= x < width -> 0 <= y < height ->
  length (computeIntegralImage data width height) = Z.to_nat (width * height) /\
  exists cell,
    read (computeIntegralImage data width height) (y * width + x) = Some cell /\
    - 2 ^ 31 <= cell < 2 ^ 31 /\
    (cell - rectSum data width 0 0 x y) mod 2 ^ 32 = 0.
Proof.
  intros Hwf Hx Hy.
  split; [apply length_computeIntegralImage; exact Hwf |].
  exists (Num.wrap32 (rectSum data width 0 0 x y)).
  split; [apply computeIntegralImage_wrap; assumption |].
  unfold Num.wrap32.
  pose proof (Z.mod_pos_bound (rectSum data width 0 0 x y + 2 ^ 31) (2 ^ 32)
                ltac:(lia)) as Hm.
  split; [lia |].
  pose proof (Z.div_mod (rectSum data width 0 0 x y + 2 ^ 31) (2 ^ 32)
                ltac:(lia)) as Hdm.
  replace ((rectSum data width 0 0 x y + 2 ^ 31) mod 2 ^ 32 - 2 ^ 31
           - rectSum data width 0 0 x y)
    with (- ((rectSum data width 0 0 x y + 2 ^ 31) / 2 ^ 32) * 2 ^ 32) by lia.
  apply Z.mod_mul. lia.
Qed.

Lemma integral_image_modulo_witness :
  exists cell,
    read (computeIntegralImage gray128 3 3) (2 * 3 + 2) = Some cell /\
    - 2 ^ 31 <= cell < 2 ^ 31 /\
    (cell - rectSum gray128 3 0 0 2 2) mod 2 ^ 32 = 0.
Proof.
  apply (proj2 (integral_image_modulo gray128 3 3 2 2 gray128_wellFormed
                  ltac:(lia) ltac:(lia))).
Defined.

(** While the total intensity fits 32 bits, every cell is the exact sum
    over [(0,0)-(x,y)], and the table does not decrease from a cell to its
    right neighbour nor to the cell below it. *)
Theorem integral_image_exact_monotone data width height :
  wellFormed data width height -> bytes data ->
  width * height * 255 < 2 ^ 31 ->
  let integral := computeIntegralImage data width height in
  (forall x y, 0 <= x < width -> 0 <= y < height ->
     read integral (y * width + x) = Some (rectSum data width 0 0 x y)) /\
  (forall x y a b, 0 <= x -> x + 1 < width -> 0 <= y < height ->
     read integral (y * width + x) = Some a ->
     read integral (y * width + (x + 1)) = Some b -> a <= b) /\
  (forall x y a b, 0 <= x < width -> 0 <= y -> y + 1 < height ->
     read integral (y * width + x) = Some a ->
     read integral ((y + 1) * width + x) = Some b -> a <= b).
Proof.
  intros Hwf Hbytes Hfits integral. subst integral.
  assert (Hexact : forall x y, 0 <= x < width -> 0 <= y < height ->
            read (computeIntegralImage data width height) (y * width + x)
            = Some (rectSum data width 0 0 x y)).
  { intros x y Hx Hy. apply computeIntegralImage_exact; assumption. }
  split; [exact Hexact |]. split.
  - intros x y a b Hx Hx1 Hy Ha Hb.
    rewrite Hexact in Ha, Hb by lia.
    injection Ha as <-. injection Hb as <-.
    rewrite (rectSum_split_x data width 0 (x + 1) (x + 1) 0 y) by lia.
    replace (x + 1 - 1) with x by lia.
    pose proof (rectSum_bounds data width Hbytes (x + 1) 0 (x + 1) y
                  ltac:(lia) ltac:(lia)).
    lia.
  - intros x y a b Hx Hy Hy1 Ha Hb.
    rewrite Hexact in Ha, Hb by lia.
    injection Ha as <-. injection Hb as <-.
    rewrite (rectSum_snoc data width 0 0 x (y + 1)) by lia.
    replace (y + 1 - 1) with y by lia.
    pose proof (rowSum_bounds data width Hbytes 0 x (y + 1) ltac:(lia)).
    lia.
Qed.

Lemma integral_image_exact_monotone_witness :
  read (computeIntegralImage gray128 3 3) (2 * 3 + 2)
  = Some (rectSum gray128 3 0 0 2 2).
Proof.
  apply (proj1 (integral_image_exact_monotone gray128 3 3 gray128_wellFormed
                  gray128_bytes ltac:(lia))); lia.
Defined.

(** While the total intensity fits 32 bits, the formula [D + A - B - C] of
    the thresholding loop, read off the computed table with the corners
    outside the image taken as [0], is the brute-force sum of the rectangle,
    for every rectangle inside the image. *)
Theorem inclusion_exclusion_exact data width height x1 y1 x2 y2 :
  wellFormed data width height -> bytes data ->
  width * height * 255 < 2 ^ 31 ->
  0 <= x1 <= x2 -> x2 < width -> 0 <= y1 <= y2 -> y2 < height ->
  windowSum (computeIntegralImage data width height) width x1 y1 x2 y2
  = Some (rectSum data width x1 y1 x2 y2) /\
  0 <= rectSum data width x1 y1 x2 y2
    <= (x2 - x1 + 1) * (y2 - y1 + 1) * 255.
Proof.
  intros Hwf Hbytes Hfits Hx1 Hx2 Hy1 Hy2. split.
  - apply windowSum_exact; assumption.
  - apply rectSum_bounds; [exact Hbytes | lia | lia].
Qed.

Lemma inclusion_exclusion_exact_witness :
  windowSum (computeIntegralImage speckle 3 3) 3 1 1 2 2
  = Some (rectSum speckle 3 1 1 2 2).
Proof.
  apply (proj1 (inclusion_exclusion_exact speckle 3 3 1 1 2 2
                  speckle_wellFormed speckle_bytes ltac:(lia)
                  ltac:(lia) ltac:(lia) ltac:(lia) ltac:(lia))).
Defined.

(** ** Adaptive thresholding *)

(** For every well-formed buffer, every window size (also zero, even or
    negative) and every constant, the result has the length of the input,
    and every pixel has three equal colour channels holding 0 or 255 and an
    opacity of 255, whatever the opacity of the input was. *)
Theorem threshold_output_binary data width height windowSize constant x y :
  wellFormed data width height ->
  0 <= x < width -> 0 <= y < height ->
  let out := applyAdaptiveThreshold data width height windowSize constant in
  length out = length data /\
  exists b, (b = 0 \/ b = 255) /\
    channel out width x y 0 = Some b /\ channel out width x y 1 = Some b /\
    channel out width x y 2 = Some b /\ channel out width x y 3 = Some 255.
Proof.
  intros Hwf Hx Hy out. subst out.
  split; [apply length_applyAdaptiveThreshold; apply Hwf |].
  exists (binaryAt data (computeIntegralImage data width height) width height
            (windowSize / 2) constant x y).
  split.
  - unfold binaryAt. destruct (window _ _ _ _ _) as [[[x1 y1] x2] y2].
    destruct (aboveThreshold _ _ _); [right | left]; reflexivity.
  - rewrite !applyAdaptiveThreshold_channel by (assumption || lia).
    repeat split; reflexivity.
Qed.

Lemma threshold_output_binary_witness :
  exists b, (b = 0 \/ b = 255) /\
    channel (applyAdaptiveThreshold speckle 3 3 (-3) 7) 3 1 1 0 = Some b /\
    channel (applyAdaptiveThreshold speckle 3 3 (-3) 7) 3 1 1 1 = Some b /\
    channel (applyAdaptiveThreshold speckle 3 3 (-3) 7) 3 1 1 2 = Some b /\
    channel (applyAdaptiveThreshold speckle 3 3 (-3) 7) 3 1 1 3 = Some 255.
Proof.
  apply (proj2 (threshold_output_binary speckle 3 3 (-3) 7 1 1
                  speckle_wellFormed ltac:(lia) ltac:(lia))).
Defined.

(** While the total intensity fits 32 bits and the window size is not
    negative, a pixel comes out white exactly when its intensity is strictly
    above the brute-force mean of its clamped window minus the constant;
    equality gives black. *)
Theorem threshold_classification data width height windowSize constant
    x y c x1 y1 x2 y2 :
  wellFormed data width height -> bytes data ->
  width * height * 255 < 2 ^ 31 -> 0 <= windowSize ->
  0 <= x < width -> 0 <= y < height -> 0 <= c < 3 ->
  window width height (windowSize / 2) x y = (x1, y1, x2, y2) ->
  let out := applyAdaptiveThreshold data width height windowSize constant in
  let mean := (inject_Z (rectSum data width x1 y1 x2 y2)
               / inject_Z ((x2 - x1 + 1) * (y2 - y1 + 1)))%Q in
  let value := inject_Z (intensity data width x y) in
  (channel out width x y c = Some 255
   <-> (mean - inject_Z constant < value)%Q) /\
  (channel out width x y c = Some 0
   <-> (value <= mean - inject_Z constant)%Q).
Proof.
  intros Hwf Hbytes Hfits Hwindow Hx Hy Hc Hwin out mean value.
  destruct (threshold_rule data width height windowSize constant
              Hwf Hbytes Hfits Hwindow x y c x1 y1 x2 y2 Hx Hy Hc Hwin)
    as (Hwhite & Hblack).
  fold mean value out in Hwhite, Hblack.
  destruct (Qlt_le_dec (mean - inject_Z constant) value) as [Hlt | Hle].
  - specialize (Hwhite Hlt). split; split; intros H; try assumption.
    + rewrite Hwhite in H. discriminate.
    + exfalso. exact (Qlt_not_le _ _ Hlt H).
  - assert (Hnot : ~ (mean - inject_Z constant < value)%Q)
      by (intros Hlt; exact (Qlt_not_le _ _ Hlt Hle)).
    specialize (Hblack Hnot). split; split; intros H; try assumption.
    + rewrite Hblack in H. discriminate.
    + contradiction.
Qed.

Lemma threshold_classification_witness :
  channel (applyAdaptiveThreshold gray128 3 3 3 0) 3 1 1 0 = Some 0.
Proof.
  apply (proj2 (threshold_classification gray128 3 3 3 0 1 1 0 0 0 2 2
                  gray128_wellFormed gray128_bytes ltac:(lia) ltac:(lia)
                  ltac:(lia) ltac:(lia) ltac:(lia) eq_refl)).
  vm_compute. discriminate.
Defined.

Lemma aboveThreshold_constant_mono value mean constant constant' :
  constant <= constant' ->
  aboveThreshold value mean constant = true ->
  aboveThreshold value mean constant' = true.
Proof.
  intros Hle. destruct value as [v |], mean as [m |]; try discriminate.
  rewrite !aboveThreshold_lt. intros Hlt.
  eapply Qle_lt_trans; [| exact Hlt].
  apply Qplus_le_r. apply Qopp_le_compat.
  rewrite <- Zle_Qle. exact Hle.
Qed.

(** Raising the constant never turns a white pixel black: for every
    well-formed buffer and window size, a pixel that is white with one
    constant is white with every larger constant. *)
Theorem threshold_constant_monotone data width height windowSize
    constant constant' x y c :
  wellFormed data width height ->
  0 <= x < width -> 0 <= y < height -> 0 <= c < 4 ->
  constant <= constant' ->
  channel (applyAdaptiveThreshold data width height windowSize constant)
    width x y c = Some 255 ->
  channel (applyAdaptiveThreshold data width height windowSize constant')
    width x y c = Some 255.
Proof.
  intros Hwf Hx Hy Hc Hle.
  rewrite !applyAdaptiveThreshold_channel by assumption.
  destruct (c <? 3); [| intros _; reflexivity].
  unfold binaryAt. destruct (window _ _ _ _ _) as [[[x1 y1] x2] y2].
  destruct (aboveThreshold _ _ constant) eqn:Habove; [| discriminate].
  intros _.
  rewrite (aboveThreshold_constant_mono _ _ constant constant' Hle Habove).
  reflexivity.
Qed.

Lemma threshold_constant_monotone_witness :
  channel (applyAdaptiveThreshold speckle 3 3 3 40) 3 1 1 0 = Some 255.
Proof.
  apply (threshold_constant_monotone speckle 3 3 3 10 40 1 1 0
           speckle_wellFormed ltac:(lia) ltac:(lia) ltac:(lia) ltac:(lia)).
  vm_compute. reflexivity.
Defined.

(** With a window size of 0 or 1 the window of a pixel is the pixel itself:
    while the total intensity fits 32 bits the result no longer depends on
    the image, all white for a positive constant and all black otherwise. *)
Theorem threshold_single_pixel_window data width height windowSize constant
    x y c :
  wellFormed data width height -> bytes data ->
  width * height * 255 < 2 ^ 31 ->
  windowSize = 0 \/ windowSize = 1 ->
  0 <= x < width -> 0 <= y < height -> 0 <= c < 3 ->
  channel (applyAdaptiveThreshold data width height windowSize constant)
    width x y c
  = Some (if 0 <? constant then 255 else 0).
Proof.
  intros Hwf Hbytes Hfits Hws Hx Hy Hc.
  assert (Hhalf : windowSize / 2 = 0) by (destruct Hws as [-> | ->]; reflexivity).
  rewrite (threshold_channel_exact data width height windowSize constant
             Hwf Hbytes Hfits ltac:(lia) x y c x y x y Hx Hy Hc)
    by (rewrite Hhalf; unfold window; repeat f_equal; lia).
  rewrite (rectSum_constant data width (intensity data width x y))
    by (try lia; intros x' y' Hx' Hy';
        replace x' with x by lia; replace y' with y by lia; reflexivity).
  f_equal.
  destruct (Z.ltb_spec 0 constant);
    destruct (Z.ltb_spec ((x - x + 1) * (y - y + 1) * intensity data width x y)
                ((intensity data width x y + constant)
                 * ((x - x + 1) * (y - y + 1))));
    try reflexivity; lia.
Qed.

Lemma threshold_single_pixel_window_witness :
  channel (applyAdaptiveThreshold speckle 3 3 1 5) 3 1 1 0 = Some 255.
Proof.
  apply (threshold_single_pixel_window speckle 3 3 1 5 1 1 0
           speckle_wellFormed speckle_bytes ltac:(lia) ltac:(lia)
           ltac:(lia) ltac:(lia) ltac:(lia)).
Defined.

(** With a half window that reaches across the whole image every pixel is
    compared with the mean of the whole image: while the total intensity
    fits 32 bits, a pixel is white exactly when its intensity plus the
    constant, times the number of pixels, exceeds the sum of all
    intensities. *)
Theorem threshold_global_window data width height windowSize constant x y c :
  wellFormed data width height -> bytes data ->
  width * height * 255 < 2 ^ 31 ->
  width <= windowSize / 2 -> height <= windowSize / 2 ->
  0 <= x < width -> 0 <= y < height -> 0 <= c < 3 ->
  channel (applyAdaptiveThreshold data width height windowSize constant)
    width x y c
  = Some (if rectSum data width 0 0 (width - 1) (height - 1)
             <? (intensity data width x y + constant) * (width * height)
          then 255 else 0).
Proof.
  intros Hwf Hbytes Hfits Hw Hh Hx Hy Hc.
  assert (Hws : 0 <= windowSize).
  { destruct (Z.le_gt_cases 0 windowSize) as [H | H]; [exact H |].
    assert (windowSize / 2 < 0) by (apply Z.div_lt_upper_bound; lia). lia. }
  rewrite (threshold_channel_exact data width height windowSize constant
             Hwf Hbytes Hfits Hws x y c 0 0 (width - 1) (height - 1) Hx Hy Hc)
    by (unfold window; repeat f_equal; lia).
  replace ((width - 1 - 0 + 1) * (height - 1 - 0 + 1)) with (width * height)
    by lia.
  reflexivity.
Qed.

Lemma threshold_global_window_witness :
  channel (applyAdaptiveThreshold speckle 3 3 9 0) 3 1 1 0 = Some 255.
Proof.
  rewrite (threshold_global_window speckle 3 3 9 0 1 1 0
             speckle_wellFormed speckle_bytes)
    by (try lia; vm_compute; discriminate).
  reflexivity.
Defined.

(** ** The median filter *)

(** An image narrower or lower than three pixels has no interior pixel: the
    filter returns it unchanged, whatever the buffer holds. *)
Theorem median_small_image_unchanged data width height :
  width < 3 \/ height < 3 ->
  applyMedianFilter data width height = data.
Proof.
  intros Hsmall.
  destruct (applyMedianFilter_loop data width height) as (Hlen & _ & Hrest).
  apply read_ext; [exact Hlen |].
  intros i _. apply Hrest. intros x y c Hx Hy _. lia.
Qed.

Lemma median_small_image_unchanged_witness :
  applyMedianFilter [9;1;1;1; 200;2;3;4; 7;1;1;1; 6;1;1;1; 5;1;1;1; 4;1;1;1] 3 2
  = [9;1;1;1; 200;2;3;4; 7;1;1;1; 6;1;1;1; 5;1;1;1; 4;1;1;1].
Proof.
  apply (median_small_image_unchanged _ 3 2). right. lia.
Defined.

Lemma sorted_nine_middle (s : list Z) (v : Z) :
  Sorted Z.le s -> length s = 9%nat ->
  (5 <= count_occ Z.eq_dec s v)%nat ->
  nth 4 s 0 = v.
Proof.
  intros Hs Hlen Hcount.
  do 9 (destruct s as [| ? s]; [discriminate Hlen |]).
  destruct s; [| discriminate Hlen]. clear Hlen.
  repeat match goal with
         | H : Sorted _ (_ :: _) |- _ =>
             apply Sorted_inv in H; destruct H as [H ?]
         | H : HdRel _ _ (_ :: _) |- _ => apply HdRel_inv in H
         end.
  cbn [nth]. cbn [count_occ] in Hcount.
  repeat match goal with
         | H : context [Z.eq_dec ?a ?b] |- _ => destruct (Z.eq_dec a b)
         end; lia.
Qed.

(** A value held by at least five of the nine pixels of a 3 by 3
    neighbourhood becomes the value of its centre: an isolated outlier in a
    flat area is removed, and a flat area is left as it is. *)
Theorem median_majority data width height x y v c :
  wellFormed data width height -> bytes data ->
  1 <= x < width - 1 -> 1 <= y < height - 1 -> 0 <= c < 3 ->
  (5 <= count_occ Z.eq_dec (neighborhood data width x y) v)%nat ->
  channel (applyMedianFilter data width height) width x y c = Some v.
Proof.
  intros Hwf Hbytes Hx Hy Hc Hcount.
  rewrite (median_interior data width height Hwf Hbytes) by assumption.
  f_equal. apply sorted_nine_middle.
  - apply sortNumbers_sorted.
  - rewrite sortNumbers_length. apply neighborhood_length.
  - rewrite (proj1 (Permutation_count_occ Z.eq_dec _ _)
               (sortNumbers_perm (neighborhood data width x y)) v).
    exact Hcount.
Qed.

Lemma median_majority_witness :
  channel
    (applyMedianFilter
       [7;0;0;255; 7;0;0;255;   7;0;0;255;
        7;0;0;255; 250;0;0;255; 7;0;0;255;
        3;0;0;255; 7;0;0;255;   9;0;0;255] 3 3) 3 1 1 0 = Some 7.
Proof.
  apply median_majority.
  - unfold wellFormed. split; [lia | split; [lia | reflexivity]].
  - unfold bytes. repeat (constructor; [lia |]). constructor.
  - lia.
  - lia.
  - lia.
  - vm_compute. lia.
Defined.

Lemma median_value_in_neighborhood data width height x y :
  wellFormed data width height -> bytes data ->
  1 <= x < width - 1 -> 1 <= y < height - 1 ->
  In (nth 4 (sortNumbers (neighborhood data width x y)) 0)
    (neighborhood data width x y).
Proof.
  intros Hwf Hbytes Hx Hy.
  eapply Permutation_in; [apply sortNumbers_perm |].
  apply nth_In. rewrite sortNumbers_length, neighborhood_length. lia.
Qed.

Lemma neighborhood_bytes data width x y v :
  bytes data -> In v (neighborhood data width x y) -> 0 <= v <= 255.
Proof.
  intros Hbytes Hv. unfold neighborhood in Hv.
  cbn [flat_map map app In] in Hv.
  repeat (destruct Hv as [<- | Hv]; [apply (intensity_byte data width Hbytes) |]).
  contradiction.
Qed.

(** The filter invents no intensity: the value written to an interior pixel
    is one of the nine intensities of its neighbourhood in the original
    buffer, and the result is again a buffer of bytes of the same length. *)
Theorem median_keeps_values data width height :
  wellFormed data width height -> bytes data ->
  let out := applyMedianFilter data width height in
  length out = length data /\ bytes out /\
  (forall x y, 1 <= x < width - 1 -> 1 <= y < height - 1 ->
     exists m, In m (neighborhood data width x y) /\
       forall c, 0 <= c < 3 -> channel out width x y c = Some m).
Proof.
  intros Hwf Hbytes out. subst out.
  destruct (applyMedianFilter_loop data width height) as (Hlen & _ & _).
  split; [exact Hlen |]. split.
  - unfold bytes. apply List.Forall_forall. intros v Hv.
    apply list_elem_of_In, list_elem_of_lookup in Hv. destruct Hv as [n Hn].
    assert (Hrd : read (applyMedianFilter data width height) (Z.of_nat n)
                  = Some v).
    { unfold read. destruct (Z.ltb_spec (Z.of_nat n) 0); [lia |].
      rewrite Nat2Z.id. exact Hn. }
    pose proof (read_Some_bound _ _ _ Hrd) as Hb. rewrite Hlen in Hb.
    destruct Hwf as (Hw & Hh & Hl).
    destruct (channel_decompose width height (Z.of_nat n) Hw ltac:(lia))
      as (x & y & c & Hx & Hy & Hc & Heq).
    rewrite Heq in Hrd. fold (channel (applyMedianFilter data width height)
                                width x y c) in Hrd.
    assert (Hwf : wellFormed data width height) by (repeat split; assumption).
    destruct (Z.eq_dec c 3) as [-> | Hc3].
    + rewrite median_alpha in Hrd by assumption.
      eapply read_bytes; eassumption.
    + destruct (Z.le_gt_cases 1 x), (Z.le_gt_cases x (width - 2)),
        (Z.le_gt_cases 1 y), (Z.le_gt_cases y (height - 2));
        try (rewrite median_border in Hrd by (assumption || lia);
             eapply read_bytes; eassumption).
      rewrite (median_interior data width height Hwf Hbytes) in Hrd by lia.
      injection Hrd as <-.
      apply (neighborhood_bytes data width x y); [exact Hbytes |].
      apply (median_value_in_neighborhood data width height); (assumption || lia).
  - intros x y Hx Hy.
    exists (nth 4 (sortNumbers (neighborhood data width x y)) 0).
    split; [apply (median_value_in_neighborhood data width height); assumption |].
    intros c Hc. apply median_interior; assumption.
Qed.

Lemma median_keeps_values_witness :
  bytes (applyMedianFilter speckle 3 3) /\
  exists m, In m (neighborhood speckle 3 1 1) /\
    forall c, 0 <= c < 3 ->
      channel (applyMedianFilter speckle 3 3) 3 1 1 c = Some m.
Proof.
  pose proof (median_keeps_values speckle 3 3 speckle_wellFormed speckle_bytes)
    as (_ & Hbytes & Hvalue).
  split; [exact Hbytes |]. apply Hvalue; lia.
Defined.

(** ** Grayscale conversion *)

Lemma luminance_of_gray_table :
  forallb
    (fun v =>
       Luma.toUint8Clamp
         (Luma.gray (Luma.ofChannel (Some v)) (Luma.ofChannel (Some v))
            (Luma.ofChannel (Some v))) =? v)
    (range 256) = true.
Proof. vm_compute. reflexivity. Qed.

(** The luminance byte of a gray pixel is its gray level, for each of the
    256 levels, although the three binary64 weights do not add up to
    exactly one. *)
Lemma luminance_of_gray v :
  0 <= v <= 255 ->
  Luma.toUint8Clamp
    (Luma.gray (Luma.ofChannel (Some v)) (Luma.ofChannel (Some v))
       (Luma.ofChannel (Some v))) = v.
Proof.
  intros Hv.
  pose proof luminance_of_gray_table as Htable.
  rewrite forallb_forall in Htable.
  apply Z.eqb_eq. apply Htable.
  unfold range. apply in_map_iff. exists (Z.to_nat v).
  split; [lia |]. apply in_seq. lia.
Qed.

Lemma offset_decompose n i :
  0 <= i < 4 * n -> exists p c, 0 <= p < n /\ 0 <= c < 4 /\ i = 4 * p + c.
Proof.
  intros Hi. exists (i / 4), (i mod 4).
  pose proof (Z.div_mod i 4 ltac:(lia)).
  pose proof (Z.mod_pos_bound i 4 ltac:(lia)).
  repeat split; lia.
Qed.

Lemma grayscaleLoop_alpha data n p :
  Z.of_nat (length data) = 4 * n ->
  read (grayscaleLoop data) (4 * p + 3) = read data (4 * p + 3).
Proof.
  intros Hlen. destruct (grayscaleLoop_inv data n Hlen) as (_ & _ & Hrest).
  apply Hrest. intros p' c Hp' Hc. lia.
Qed.

(** A pixel that is already gray keeps its four channels, and running the
    grayscale loop on its own output changes nothing. *)
Theorem grayscale_idempotent data n :
  Z.of_nat (length data) = 4 * n ->
  (forall p v c, 0 <= p < n -> 0 <= v <= 255 -> 0 <= c < 4 ->
     read data (4 * p) = Some v -> read data (4 * p + 1) = Some v ->
     read data (4 * p + 2) = Some v ->
     read (grayscaleLoop data) (4 * p + c) = read data (4 * p + c)) /\
  grayscaleLoop (grayscaleLoop data) = grayscaleLoop data.
Proof.
  intros Hlen.
  destruct (grayscaleLoop_inv data n Hlen) as (Hl & Hdone & Hrest).
  split.
  - intros p v c Hp Hv Hc H0 H1 H2.
    destruct (Z.eq_dec c 3) as [-> | Hc3];
      [apply (grayscaleLoop_alpha data n); exact Hlen |].
    rewrite Hdone by lia. unfold luminanceByte. rewrite H0, H1, H2.
    rewrite (luminance_of_gray v Hv).
    assert (c = 0 \/ c = 1 \/ c = 2) as [-> | [-> | ->]] by lia;
      [rewrite Z.add_0_r | |]; symmetry; assumption.
  - assert (Hlen1 : Z.of_nat (length (grayscaleLoop data)) = 4 * n)
      by (rewrite Hl; exact Hlen).
    destruct (grayscaleLoop_inv (grayscaleLoop data) n Hlen1)
      as (Hl2 & Hdone2 & _).
    apply read_ext; [exact Hl2 |].
    intros i Hi. rewrite Hl2, Hlen1 in Hi.
    destruct (offset_decompose n i Hi) as (p & c & Hp & Hc & ->).
    destruct (Z.eq_dec c 3) as [-> | Hc3];
      [apply (grayscaleLoop_alpha (grayscaleLoop data) n); exact Hlen1 |].
    rewrite Hdone2, Hdone by lia. apply (f_equal Some).
    pose proof (Hdone p 0 Hp ltac:(lia)) as H0. rewrite Z.add_0_r in H0.
    pose proof (Hdone p 1 Hp ltac:(lia)) as H1.
    pose proof (Hdone p 2 Hp ltac:(lia)) as H2.
    assert (HL : 0 <= luminanceByte data p <= 255)
      by (unfold luminanceByte; apply toUint8Clamp_byte).
    remember (luminanceByte data p) as L eqn:HeqL. clear HeqL.
    unfold luminanceByte. rewrite H0, H1, H2.
    exact (luminance_of_gray L HL).
Qed.

Lemma grayscale_idempotent_witness :
  grayscaleLoop (grayscaleLoop [255;0;0;7; 0;0;250;3])
  = grayscaleLoop [255;0;0;7; 0;0;250;3].
Proof.
  apply (proj2 (grayscale_idempotent [255;0;0;7; 0;0;250;3] 2 eq_refl)).
Defined.

(** ** The pixel work of the orchestrator *)

Lemma grayscaleLoop_wellFormed data width height :
  wellFormed data width height -> wellFormed (grayscaleLoop data) width height.
Proof.
  intros (Hw & Hh & Hlen). repeat split; [exact Hw | exact Hh |].
  destruct (grayscaleLoop_inv data (width * height) ltac:(lia)) as (Hl & _).
  rewrite Hl. exact Hlen.
Qed.

Lemma applyMedianFilter_wellFormed data width height :
  wellFormed data width height ->
  wellFormed (applyMedianFilter data width height) width height.
Proof.
  intros (Hw & Hh & Hlen). repeat split; [exact Hw | exact Hh |].
  destruct (applyMedianFilter_loop data width height) as (Hl & _).
  rewrite Hl. exact Hlen.
Qed.

Lemma beforeThreshold_wellFormed config data width height :
  wellFormed data width height ->
  wellFormed (beforeThreshold config data width height) width height.
Proof.
  intros Hwf. unfold beforeThreshold.
  destruct (runsGrayscale config), (runsDenoise config);
    repeat first [ apply applyMedianFilter_wellFormed
                 | apply grayscaleLoop_wellFormed ]; exact Hwf.
Qed.

Lemma processPixels_stages config data width height :
  processPixels config data width height
  = if runsBinarize config
    then applyAdaptiveThreshold (beforeThreshold config data width height)
           width height pipeline_windowSize pipeline_constant
    else beforeThreshold config data width height.
Proof. reflexivity. Qed.

(** Whenever the pipeline binarizes, whatever the other options, its pixel
    work keeps the length of the buffer and leaves every pixel either
    opaque black or opaque white. *)
Theorem pipeline_output_binary config data width height x y :
  wellFormed data width height ->
  runsBinarize config = true ->
  0 <= x < width -> 0 <= y < height ->
  let out := processPixels config data width height in
  length out = length data /\
  exists b, (b = 0 \/ b = 255) /\
    channel out width x y 0 = Some b /\ channel out width x y 1 = Some b /\
    channel out width x y 2 = Some b /\ channel out width x y 3 = Some 255.
Proof.
  intros Hwf Hbin Hx Hy out. subst out.
  rewrite processPixels_stages, Hbin.
  pose proof (beforeThreshold_wellFormed config data width height Hwf) as Hmid.
  split.
  - rewrite length_applyAdaptiveThreshold by apply Hmid.
    destruct Hwf as (_ & _ & Hl), Hmid as (_ & _ & Hl'). lia.
  - exists (binaryAt (beforeThreshold config data width height)
              (computeIntegralImage (beforeThreshold config data width height)
                 width height)
              width height (pipeline_windowSize / 2) pipeline_constant x y).
    split.
    + unfold binaryAt. destruct (window _ _ _ _ _) as [[[x1 y1] x2] y2].
      destruct (aboveThreshold _ _ _); [right | left]; reflexivity.
    + rewrite !applyAdaptiveThreshold_channel by (assumption || lia).
      repeat split; reflexivity.
Qed.

Lemma pipeline_output_binary_witness :
  exists b, (b = 0 \/ b = 255) /\
    channel (processPixels (resolveConfig None) speckle 3 3) 3 1 1 0 = Some b /\
    channel (processPixels (resolveConfig None) speckle 3 3) 3 1 1 1 = Some b /\
    channel (processPixels (resolveConfig None) speckle 3 3) 3 1 1 2 = Some b /\
    channel (processPixels (resolveConfig None) speckle 3 3) 3 1 1 3 = Some 255.
Proof.
  apply (proj2 (pipeline_output_binary (resolveConfig None) speckle 3 3 1 1
                  speckle_wellFormed eq_refl ltac:(lia) ltac:(lia))).
Defined.

(** Without binarization the pipeline never touches opacity: whatever the
    grayscale and denoise options, every pixel keeps its opacity channel
    and the buffer its length. *)
Theorem pipeline_keeps_opacity config data width height x y :
  wellFormed data width height ->
  runsBinarize config = false ->
  0 <= x < width -> 0 <= y < height ->
  let out := processPixels config data width height in
  length out = length data /\
  channel out width x y 3 = channel data width x y 3.
Proof.
  intros Hwf Hbin Hx Hy out. subst out.
  rewrite processPixels_stages, Hbin.
  pose proof (beforeThreshold_wellFormed config data width height Hwf) as Hmid.
  split.
  - destruct Hwf as (_ & _ & Hl), Hmid as (_ & _ & Hl'). lia.
  - assert (Hgray : channel (grayscaleLoop data) width x y 3
                    = channel data width x y 3).
    { unfold channel.
      replace ((y * width + x) * 4 + 3) with (4 * (y * width + x) + 3) by lia.
      apply (grayscaleLoop_alpha data (width * height)).
      destruct Hwf as (_ & _ & Hl). lia. }
    unfold beforeThreshold.
    destruct (runsGrayscale config), (runsDenoise config);
      rewrite ?median_alpha by assumption; try exact Hgray; reflexivity.
Qed.

Lemma pipeline_keeps_opacity_witness :
  channel
    (processPixels
       {| grayscale := Bool true; binarize := Bool false;
          denoise := Bool true; upscale := Missing; others := [] |} speckle 3 3) 3 1 1 3
  = channel speckle 3 1 1 3.
Proof.
  apply (proj2 (pipeline_keeps_opacity
                  {| grayscale := Bool true; binarize := Bool false;
                     denoise := Bool true; upscale := Missing; others := [] |}
                  speckle 3 3 1 1 speckle_wellFormed eq_refl
                  ltac:(lia) ltac:(lia))).
Defined.

(** * The upload proxy *)

Local Open Scope string_scope.

Lemma textMissing_false text :
  textMissing text = false ->
  exists s, text = Some (JString s) /\ s <> "".
Proof.
  destruct text as [v |]; [| discriminate].
  destruct v as [| b | x | s | items | fields]; cbn;
    rewrite ?orb_true_r; try discriminate.
  rewrite orb_false_r, negb_false_iff, negb_true_iff.
  intros Hs. exists s. split; [reflexivity |].
  apply String.eqb_neq. exact Hs.
Qed.

Lemma textMissing_string s : s <> "" -> textMissing (Some (JString s)) = false.
Proof.
  intros Hs. cbn. apply String.eqb_neq in Hs. rewrite Hs. reflexivity.
Qed.

Lemma forward_sent env urlString payload :
  fst (forwardToRemoteBackend env urlString payload) = []
  \/ exists options,
       fst (forwardToRemoteBackend env urlString payload)
       = [ {| sent_options := options; sent_body := stringify env payload |} ]
       /\ opt_method options = "POST"
       /\ opt_contentLength options
          = Z.of_nat (String.length (stringify env payload)).
Proof.
  unfold forwardToRemoteBackend.
  destruct (parseURL env urlString) as [e | url]; [left; reflexivity |].
  destruct (network env _ _); [left; reflexivity | right ..];
    eexists; (split; [reflexivity | split; reflexivity]).
Qed.

(** The proxy contacts the backend only for a request whose JSON body has a
    [text] that is a non-empty string, and only when the backend URL is
    configured and not empty; it then writes exactly one request, a POST
    whose body is the serialized JSON body it received and whose
    Content-Length is the byte length of that body. *)
Theorem post_forwards_only_valid env request :
  fst (POST env request) <> [] ->
  exists payload text url options,
    request = Some payload /\
    getText payload = Found (JString text) /\ text <> "" /\
    backendUrl env = Some url /\ url <> "" /\
    fst (POST env request)
    = [ {| sent_options := options; sent_body := stringify env payload |} ] /\
    opt_method options = "POST" /\
    opt_contentLength options
    = Z.of_nat (String.length (stringify env payload)).
Proof.
  unfold POST. destruct request as [payload |]; [| intros H; contradiction].
  destruct (getText payload) as [| | v] eqn:Htext;
    try (cbn; intros H; contradiction).
  destruct (textMissing (Some v)) eqn:Hmissing; [intros H; contradiction |].
  destruct (textMissing_false _ Hmissing) as (text & Hv & Hne).
  injection Hv as ->.
  destruct (backendUrl env) as [url |]; [| intros H; contradiction].
  destruct (String.eqb_spec url "") as [-> | Hurl]; [intros H; contradiction |].
  destruct (forward_sent env url payload) as [Hnone | (options & Hsent & Hm & Hl)];
    destruct (forwardToRemoteBackend env url payload) as [sent remote];
    cbn [fst] in *; subst sent.
  - destruct remote as [st data | e];
      [destruct (responseStatus env st) |]; intros H; contradiction.
  - intros _. exists payload, text, url, options.
    repeat split; try assumption; try reflexivity.
    destruct remote as [st data | e];
      [destruct (responseStatus env st) |]; reflexivity.
Qed.

Lemma post_forwards_only_valid_witness :
  exists payload text url options,
    Some lyricsBody = Some payload /\
    getText payload = Found (JString text) /\ text <> "" /\
    backendUrl backendOK = Some url /\ url <> "" /\
    fst (POST backendOK (Some lyricsBody))
    = [ {| sent_options := options;
           sent_body := stringify backendOK payload |} ] /\
    opt_method options = "POST" /\
    opt_contentLength options
    = Z.of_nat (String.length (stringify backendOK payload)).
Proof.
  apply (post_forwards_only_valid backendOK (Some lyricsBody)).
  vm_compute. discriminate.
Defined.

Lemma textMissing_examples :
  textMissing (Some (JString "")) = true /\
  textMissing (Some (JNumber 7)) = true /\
  textMissing (Some (JBool true)) = true /\
  textMissing (Some JNull) = true /\
  textMissing (Some (JArray [JString "abc"])) = true /\
  textMissing None = true /\
  textMissing (Some (JString "abc")) = false.
Proof. repeat split; reflexivity. Qed.

(** What is refused before anything is forwarded: a body that is not JSON
    gets 400; a body that is JSON but not [null] and whose [text] is
    missing, empty or not a string gets 400; the JSON body [null] gets 500,
    because reading its [text] throws. *)
Theorem post_rejects_malformed env :
  POST env None = ([], errorResponse 400 "Invalid JSON body") /\
  (forall payload,
     payload <> JNull ->
     (forall s, getText payload = Found (JString s) -> s = "") ->
     POST env (Some payload)
     = ([], errorResponse 400 "Missing required field: text (string)")) /\
  POST env (Some JNull) = ([], internalError (nullAccess env)) /\
  status (snd (POST env (Some JNull))) = 500%Z.
Proof.
  split; [reflexivity |]. split; [| split; reflexivity].
  intros payload Hnull Htext. unfold POST.
  destruct (getText payload) as [| | v] eqn:Hget.
  - destruct payload; try discriminate Hget; [contradiction |].
    cbn in Hget. destruct (lookupField "text" fields); discriminate.
  - reflexivity.
  - destruct (textMissing (Some v)) eqn:Hmissing; [reflexivity |].
    destruct (textMissing_false _ Hmissing) as (s & Hv & Hne).
    injection Hv as ->. exfalso. apply Hne. apply Htext. reflexivity.
Qed.

Lemma post_rejects_malformed_witness :
  POST backendOK
    (Some (JObject [("text", JString ""); ("metadata", JNull)]))
  = ([], errorResponse 400 "Missing required field: text (string)").
Proof.
  apply (proj1 (proj2 (post_rejects_malformed backendOK))).
  - discriminate.
  - intros s Hs. cbn in Hs. injection Hs as <-. reflexivity.
Defined.

(** When the response of the backend ends, the promise is always resolved,
    never rejected, whatever the status and the text: with the status of
    the backend (200 when it has none), and with the parsed text, an empty
    object for an empty text, or the text itself as [message] when it is
    not JSON.  The fallback message "Success" is never used. *)
Theorem backend_reply_always_resolves env statusCode data :
  exists st reply,
    onEnd env statusCode data = ForwardResolved st reply /\
    (statusCode = None \/ statusCode = Some 0%Z -> st = 200%Z) /\
    (forall code, statusCode = Some code -> code <> 0%Z -> st = code) /\
    (data = "" -> reply = JObject []) /\
    (forall v, data <> "" -> parseJSON env data = Some v -> reply = v) /\
    (data <> "" -> parseJSON env data = None ->
     reply = JObject [("message", JString data)]).
Proof.
  unfold onEnd.
  set (st := match statusCode with
             | Some 0%Z | None => 200%Z
             | Some s => s
             end).
  assert (Hst : (statusCode = None \/ statusCode = Some 0%Z -> st = 200%Z) /\
                (forall code, statusCode = Some code -> code <> 0%Z -> st = code)).
  { subst st. split.
    - intros [-> | ->]; reflexivity.
    - intros code -> Hcode. destruct code; [contradiction | reflexivity ..]. }
  destruct Hst as (Hdefault & Hcode).
  destruct (String.eqb_spec data "") as [-> | Hdata].
  - exists st, (JObject []). repeat split; try assumption;
      intros; try contradiction; reflexivity.
  - destruct (parseJSON env data) as [v |] eqn:Hparse.
    + exists st, v. repeat split; try assumption.
      * intros; contradiction.
      * intros v' _ Hv'. congruence.
      * intros _ H. discriminate.
    + exists st, (JObject [("message", JString data)]).
      repeat split; try assumption.
      * intros; contradiction.
      * intros v' _ Hv'. discriminate.
Qed.

Lemma backend_reply_always_resolves_witness :
  exists st reply,
    onEnd backendOK (Some 0%Z) "<html>Bad Gateway</html>"
    = ForwardResolved st reply /\
    st = 200%Z /\
    reply = JObject [("message", JString "<html>Bad Gateway</html>")].
Proof.
  destruct (backend_reply_always_resolves backendOK (Some 0%Z)
              "<html>Bad Gateway</html>")
    as (st & reply & Heq & Hdefault & _ & _ & _ & Htext).
  exists st, reply. split; [exact Heq |]. split.
  - apply Hdefault. right. reflexivity.
  - apply Htext; [discriminate | reflexivity].
Defined.

Section Forwarding.

Variables (env : ServerEnv) (payload : json) (text urlString : string).
Variable url : URL.
Hypothesis Htext : getText payload = Found (JString text).
Hypothesis Hnonempty : text <> "".
Hypothesis Hconfigured : backendUrl env = Some urlString.
Hypothesis Hurl : urlString <> "".
Hypothesis Hparsed : parseURL env urlString = inr url.

Local Abbreviation options :=
  {| opt_hostname := url_hostname url;
     opt_port := if String.eqb (url_port url) ""
                 then PortNumber 80 else PortText (url_port url);
     opt_path := url_pathname url ++ url_search url;
     opt_method := "POST";
     opt_contentType := "application/json";
     opt_contentLength := Z.of_nat (String.length (stringify env payload));
     opt_userAgent := "NextJS-OCR-Proxy/1.0";
     opt_family := 0 |}.

Lemma POST_forwarding :
  POST env (Some payload)
  = let '(sent, remote) := forwardToRemoteBackend env urlString payload in
    match remote with
    | ForwardRejected e => (sent, internalError e)
    | ForwardResolved st data =>
        match responseStatus env st with
        | Some e => (sent, internalError e)
        | None => (sent, {| status := st; body := data |})
        end
    end.
Proof.
  unfold POST. rewrite Htext, (textMissing_string text Hnonempty), Hconfigured.
  destruct (String.eqb_spec urlString "") as [Heq | _]; [contradiction |].
  reflexivity.
Qed.

Lemma POST_reply statusCode chunks st reply :
  network env options (stringify env payload) = ResponseEnd statusCode chunks ->
  onEnd env statusCode (String.concat "" chunks) = ForwardResolved st reply ->
  responseStatus env st = None ->
  POST env (Some payload)
  = ([ {| sent_options := options; sent_body := stringify env payload |} ],
     {| status := st; body := reply |}).
Proof.
  intros Hnet Hend Hstatus. rewrite POST_forwarding.
  unfold forwardToRemoteBackend. rewrite Hparsed, Hnet, Hend, Hstatus.
  reflexivity.
Qed.

Lemma POST_failures :
  (network env options (stringify env payload) = Timeout ->
   snd (POST env (Some payload))
   = internalError (ErrorObject "Request to remote backend timed out")) /\
  (forall message,
     network env options (stringify env payload) = ConnectionError message ->
     snd (POST env (Some payload))
     = internalError
         (ErrorObject ("Failed to connect to remote backend: " ++ message))) /\
  (forall statusCode chunks st reply e,
     network env options (stringify env payload)
     = ResponseEnd statusCode chunks ->
     onEnd env statusCode (String.concat "" chunks) = ForwardResolved st reply ->
     responseStatus env st = Some e ->
     snd (POST env (Some payload)) = internalError e).
Proof.
  rewrite POST_forwarding. unfold forwardToRemoteBackend. rewrite Hparsed.
  split; [| split].
  - intros ->. reflexivity.
  - intros message ->. reflexivity.
  - intros statusCode chunks st reply e -> -> ->. reflexivity.
Qed.

End Forwarding.

(** A valid request with a configured backend whose URL parses: when the
    response of the backend ends with a status the response constructor
    accepts and a text that parses as JSON, the proxy returns exactly that
    status and that JSON value, having written one POST request to the host
    and path of the URL, on the port of the URL or on port 80 when the URL
    names none. *)
Theorem post_passes_reply_through env payload text urlString url
    code chunks reply :
  getText payload = Found (JString text) -> text <> "" ->
  backendUrl env = Some urlString -> urlString <> "" ->
  parseURL env urlString = inr url ->
  (forall options body, network env options body = ResponseEnd (Some code) chunks) ->
  code <> 0%Z -> String.concat "" chunks <> "" ->
  parseJSON env (String.concat "" chunks) = Some reply ->
  responseStatus env code = None ->
  snd (POST env (Some payload)) = {| status := code; body := reply |} /\
  exists options,
    fst (POST env (Some payload))
    = [ {| sent_options := options; sent_body := stringify env payload |} ] /\
    opt_hostname options = url_hostname url /\
    opt_path options = url_pathname url ++ url_search url /\
    (url_port url = "" -> opt_port options = PortNumber 80) /\
    (url_port url <> "" -> opt_port options = PortText (url_port url)).
Proof.
  intros Htext Hne Hcfg Hurl Hparsed Hnet Hcode Hdata Hjson Hstatus.
  assert (Hend : onEnd env (Some code) (String.concat "" chunks)
                 = ForwardResolved code reply).
  { unfold onEnd. apply String.eqb_neq in Hdata. rewrite Hdata, Hjson.
    destruct code; [contradiction | reflexivity ..]. }
  rewrite (POST_reply env payload text urlString url Htext Hne Hcfg Hurl Hparsed
             (Some code) chunks code reply (Hnet _ _) Hend Hstatus).
  split; [reflexivity |].
  eexists. split; [reflexivity |]. cbn.
  repeat split.
  - intros ->. reflexivity.
  - intros Hport. apply String.eqb_neq in Hport. rewrite Hport. reflexivity.
Qed.

Lemma post_passes_reply_through_witness :
  snd (POST backendOK (Some lyricsBody))
  = {| status := 201; body := JObject [("success", JBool true)] |}.
Proof.
  apply (post_passes_reply_through backendOK lyricsBody "abc"
           "http://[2001:db8::1]/lyrics?v=1" exampleUrl 201 ["sa"; "ved"]
           (JObject [("success", JBool true)]));
    first [ reflexivity | discriminate | intros; reflexivity ].
Defined.

(** A valid request with a configured backend never gets the answer of
    the backend when the connection fails, the request times out, the URL
    does not parse, or the status is one the response constructor refuses:
    the proxy answers 500 "Internal server error" with the message of the
    failure. *)
Theorem post_backend_failures env payload text urlString :
  getText payload = Found (JString text) -> text <> "" ->
  backendUrl env = Some urlString -> urlString <> "" ->
  (forall e, parseURL env urlString = inl e ->
     POST env (Some payload) = ([], internalError e)) /\
  (forall url, parseURL env urlString = inr url ->
     ((forall options body, network env options body = Timeout) ->
      snd (POST env (Some payload))
      = internalError (ErrorObject "Request to remote backend timed out")) /\
     (forall message,
        (forall options body,
           network env options body = ConnectionError message) ->
        snd (POST env (Some payload))
        = internalError
            (ErrorObject
               ("Failed to connect to remote backend: " ++ message))) /\
     (forall statusCode chunks st reply e,
        (forall options body,
           network env options body = ResponseEnd statusCode chunks) ->
        onEnd env statusCode (String.concat "" chunks)
        = ForwardResolved st reply ->
        responseStatus env st = Some e ->
        snd (POST env (Some payload)) = internalError e)) /\
  (forall e, status (internalError e) = 500%Z).
Proof.
  intros Htext Hne Hcfg Hurl. split; [| split].
  - intros e Hparse. unfold POST.
    rewrite Htext, (textMissing_string text Hne), Hcfg.
    destruct (String.eqb_spec urlString "") as [Heq | _]; [contradiction |].
    unfold forwardToRemoteBackend. rewrite Hparse. reflexivity.
  - intros url Hparsed.
    destruct (POST_failures env payload text urlString url
                Htext Hne Hcfg Hurl Hparsed) as (Htimeout & Hconn & Hstatus).
    split; [| split].
    + intros Hnet. apply Htimeout. apply Hnet.
    + intros message Hnet. apply Hconn. apply Hnet.
    + intros statusCode chunks st reply e Hnet Hend Hrefused.
      apply (Hstatus statusCode chunks st reply e); [apply Hnet | assumption ..].
  - reflexivity.
Qed.

Lemma post_backend_failures_witness :
  snd (POST backendDown (Some lyricsBody))
  = internalError
      (ErrorObject
         "Failed to connect to remote backend: connect ECONNREFUSED").
Proof.
  destruct (post_backend_failures backendDown lyricsBody "abc"
              "http://[2001:db8::1]/lyrics?v=1"
              eq_refl ltac:(discriminate) eq_refl ltac:(discriminate))
    as (_ & Hurl & _).
  destruct (Hurl exampleUrl eq_refl) as (_ & Hconn & _).
  apply (Hconn "connect ECONNREFUSED"). intros options body. reflexivity.
Defined.

Local Close Scope string_scope.

(** * The page *)

Local Open Scope string_scope.

(** ** Saving the text *)

Lemma responseOk_spec code : responseOk code = true <-> 200 <= code <= 299.
Proof. unfold responseOk. rewrite andb_true_iff, !Z.leb_le. reflexivity. Qed.

Lemma getText_saveBody text confidence timestamp :
  getText (saveBody text confidence timestamp) = Found (JString text).
Proof. reflexivity. Qed.

Lemma handleSaveToServer_posts fetch state text confidence timestamp :
  text <> "" ->
  let requestBody := saveBody text confidence timestamp in
  let ok := match fetch requestBody with
            | FetchResponse code => responseOk code
            | FetchFails => false
            end in
  handleSaveToServer fetch state text confidence timestamp
  = ([requestBody],
     {| isSaving := false;
        saveStatus := if ok then SaveSuccess else SaveError |},
     Some (if ok then 3000 else 5000)%Z).
Proof.
  intros Hne requestBody ok. subst ok requestBody. unfold handleSaveToServer.
  apply String.eqb_neq in Hne. rewrite Hne.
  destruct (fetch (saveBody text confidence timestamp)) as [code |];
    [destruct (responseOk code) |]; reflexivity.
Qed.

(** With an empty text nothing is posted and the state is left as it was.
    Otherwise exactly one body is posted, whose [text] is the text on the
    page; the function always ends with [isSaving] false, and it shows
    success exactly when the request was answered with a status from 200 to
    299, failure in every other case, with a reset timer of 3 seconds after
    a success and 5 seconds after a failure. *)
Theorem save_outcome fetch state text confidence timestamp :
  let run := handleSaveToServer fetch state text confidence timestamp in
  let requestBody := saveBody text confidence timestamp in
  (text = "" -> run = ([], state, None)) /\
  (text <> "" ->
   fst (fst run) = [requestBody] /\
   getText requestBody = Found (JString text) /\
   isSaving (snd (fst run)) = false /\
   (saveStatus (snd (fst run)) = SaveSuccess
    <-> exists code, fetch requestBody = FetchResponse code /\ 200 <= code <= 299) /\
   (saveStatus (snd (fst run)) = SaveSuccess /\ snd run = Some 3000
    \/ saveStatus (snd (fst run)) = SaveError /\ snd run = Some 5000)).
Proof.
  intros run requestBody. split.
  - intros ->. reflexivity.
  - intros Hne. subst run.
    rewrite (handleSaveToServer_posts fetch state text confidence timestamp Hne).
    fold requestBody. cbn [fst snd isSaving saveStatus].
    split; [reflexivity |]. split; [apply getText_saveBody |].
    split; [reflexivity |].
    destruct (fetch requestBody) as [code |] eqn:Hfetch.
    + destruct (responseOk code) eqn:Hok.
      * split; [| left; split; reflexivity].
        split; [| reflexivity].
        intros _. exists code. split; [reflexivity |].
        apply responseOk_spec. exact Hok.
      * split; [| right; split; reflexivity].
        split; [discriminate |].
        intros (code' & Hcode & Hrange). injection Hcode as <-.
        apply responseOk_spec in Hrange. congruence.
    + split; [| right; split; reflexivity].
      split; [discriminate |].
      intros (code' & Hcode & _). discriminate.
Qed.

Lemma save_outcome_witness :
  saveStatus
    (snd (fst (handleSaveToServer (fun _ => FetchResponse 404)
                 {| isSaving := false; saveStatus := SaveIdle |}
                 "abc" 87.5 "2024-01-01T00:00:00.000Z")))
  = SaveError.
Proof.
  destruct (save_outcome (fun _ => FetchResponse 404)
              {| isSaving := false; saveStatus := SaveIdle |}
              "abc" 87.5 "2024-01-01T00:00:00.000Z") as (_ & Hrun).
  destruct (Hrun ltac:(discriminate)) as (_ & _ & _ & _ & [[Hs _] | [He _]]);
    [| exact He].
  vm_compute in Hs. discriminate Hs.
Defined.

(** The page and the proxy together: a non-empty text always passes the
    validation of the proxy, so the proxy answers 500 when no backend is
    configured and otherwise forwards the body the page built; the page
    shows success exactly when the proxy answers with a status from 200 to
    299, and shows failure when no backend is configured. *)
Theorem save_through_proxy env state text confidence timestamp :
  text <> "" ->
  let requestBody := saveBody text confidence timestamp in
  let run := handleSaveToServer (fetchViaProxy env) state text confidence
               timestamp in
  (saveStatus (snd (fst run)) = SaveSuccess
   <-> 200 <= status (snd (POST env (Some requestBody))) <= 299) /\
  (backendUrl env = None \/ backendUrl env = Some "" ->
   POST env (Some requestBody)
   = ([], errorResponse 500 "Backend configuration error") /\
   saveStatus (snd (fst run)) = SaveError) /\
  (forall url, backendUrl env = Some url -> url <> "" ->
   fst (POST env (Some requestBody))
   = fst (forwardToRemoteBackend env url requestBody)).
Proof.
  intros Hne requestBody run.
  assert (Hsuccess : saveStatus (snd (fst run)) = SaveSuccess
            <-> 200 <= status (snd (POST env (Some requestBody))) <= 299).
  { subst run.
    rewrite (handleSaveToServer_posts (fetchViaProxy env) state text confidence
               timestamp Hne).
    fold requestBody. unfold fetchViaProxy. cbn [fst snd saveStatus].
    rewrite <- responseOk_spec.
    destruct (responseOk (status (snd (POST env (Some requestBody)))));
      split; (reflexivity || discriminate). }
  split; [exact Hsuccess |]. split.
  - intros Hunset.
    assert (Hpost : POST env (Some requestBody)
                    = ([], errorResponse 500 "Backend configuration error")).
    { unfold POST. subst requestBody. rewrite getText_saveBody.
      rewrite (textMissing_string text Hne).
      destruct Hunset as [-> | ->]; reflexivity. }
    split; [exact Hpost |].
    destruct (saveStatus (snd (fst run))) eqn:Hs; [| | reflexivity].
    + subst run.
      rewrite (handleSaveToServer_posts (fetchViaProxy env) state text
                 confidence timestamp Hne) in Hs.
      cbn [fst snd saveStatus] in Hs.
      destruct (match fetchViaProxy env (saveBody text confidence timestamp) with
                | FetchResponse code => responseOk code
                | FetchFails => false
                end); discriminate.
    + pose proof (proj1 Hsuccess eq_refl) as Hrange.
      rewrite Hpost in Hrange. cbn in Hrange. lia.
  - intros url Hcfg Hurl. unfold POST. subst requestBody.
    rewrite getText_saveBody, (textMissing_string text Hne), Hcfg.
    destruct (String.eqb_spec url "") as [Heq | _]; [contradiction |].
    destruct (forwardToRemoteBackend env url (saveBody text confidence timestamp))
      as [sent remote].
    destruct remote as [st data | e];
      [destruct (responseStatus env st) |]; reflexivity.
Qed.

Lemma save_through_proxy_witness :
  saveStatus
    (snd (fst (handleSaveToServer (fetchViaProxy backendUnset)
                 {| isSaving := false; saveStatus := SaveIdle |}
                 "abc" 87.5 "2024-01-01T00:00:00.000Z")))
  = SaveError.
Proof.
  destruct (save_through_proxy backendUnset
              {| isSaving := false; saveStatus := SaveIdle |}
              "abc" 87.5 "2024-01-01T00:00:00.000Z" ltac:(discriminate))
    as (_ & Hunset & _).
  apply Hunset. left. reflexivity.
Defined.

(** ** Recognition *)

Lemma logger_keeps engine messages st :
  let st' := fold_left (logger engine) messages st in
  ocr_status st' = ocr_status st /\ ocr_result st' = ocr_result st /\
  ocr_confidence st' = ocr_confidence st.
Proof.
  revert st. induction messages as [| m messages IH]; intros st; cbn.
  - repeat split.
  - destruct (IH (logger engine st m)) as (Hs & Hr & Hc).
    rewrite Hs, Hr, Hc. unfold logger.
    destruct (String.eqb (m_status m) "recognizing text"); repeat split.
Qed.

(** A call of [performOCR] always ends in the status completed or error,
    whatever the engine logs.  It ends completed exactly when creating the
    worker, recognizing and terminating all succeed; it then holds the
    recognized text and confidence, returns them, and has terminated the
    worker. *)
Theorem performOCR_final_status engine st :
  let run := performOCR engine st in
  (ocr_status (run_state run) = Completed
   \/ ocr_status (run_state run) = Failed) /\
  (ocr_status (run_state run) = Completed
   <-> created engine = true /\ recognized engine <> None
       /\ terminated engine = true) /\
  (forall text confidence,
     created engine = true -> recognized engine = Some (text, confidence) ->
     terminated engine = true ->
     ocr_result (run_state run) = Some text /\
     ocr_confidence (run_state run) = confidence /\
     ocr_statusMessage (run_state run) = "Done!" /\
     run_returned run = Some (text, confidence) /\
     run_terminateCalled run = true).
Proof.
  intros run. subst run. unfold performOCR.
  destruct (created engine); cbn [negb].
  - destruct (recognized engine) as [[text confidence] |].
    + destruct (terminated engine); cbn.
      * split; [left; reflexivity |]. split.
        -- split; [intros _; repeat split; discriminate | reflexivity].
        -- intros text' confidence' _ Heq _. injection Heq as <- <-.
           repeat split.
      * split; [right; reflexivity |]. split.
        -- split; [discriminate | intros (_ & _ & H); discriminate].
        -- intros text' confidence' _ _ H. discriminate.
    + cbn. split; [right; reflexivity |]. split.
      * split; [discriminate | intros (_ & H & _); contradiction].
      * intros text confidence _ H. discriminate.
  - cbn. split; [right; reflexivity |]. split.
    + split; [discriminate | intros (H & _); discriminate].
    + intros text confidence H. discriminate.
Qed.

Lemma performOCR_final_status_witness :
  ocr_status (run_state (performOCR failingEngine idleOCR)) = Failed.
Proof.
  destruct (performOCR_final_status failingEngine idleOCR)
    as ([Hc | Hf] & Hiff & _); [| exact Hf].
  apply Hiff in Hc. destruct Hc as (_ & Hrec & _). exfalso. apply Hrec.
  reflexivity.
Defined.

(** When the worker cannot be created or the recognition fails, the call
    returns nothing and leaves the result cleared but the confidence of the
    earlier recognition in place; a worker that was created is then never
    terminated.  When only terminating the worker fails, the call returns
    nothing and ends in the status error although the state holds the
    recognized text and confidence. *)
Theorem performOCR_failures engine st :
  let run := performOCR engine st in
  (created engine = false \/ recognized engine = None ->
   ocr_status (run_state run) = Failed /\
   ocr_result (run_state run) = None /\
   ocr_confidence (run_state run) = ocr_confidence st /\
   ocr_statusMessage (run_state run) = "Error occurred during OCR processing." /\
   run_returned run = None /\
   run_workerCreated run = created engine /\
   run_terminateCalled run = false) /\
  (forall text confidence,
     created engine = true -> recognized engine = Some (text, confidence) ->
     terminated engine = false ->
     ocr_status (run_state run) = Failed /\
     ocr_result (run_state run) = Some text /\
     ocr_confidence (run_state run) = confidence /\
     run_returned run = None).
Proof.
  intros run. subst run. unfold performOCR.
  set (st0 := {| ocr_progress := 0; ocr_status := Initializing;
                 ocr_statusMessage := "Initializing Tesseract...";
                 ocr_result := None; ocr_confidence := ocr_confidence st |}).
  destruct (logger_keeps engine (createMessages engine) st0) as (_ & Hr1 & Hc1).
  set (st1 := fold_left (logger engine) (createMessages engine) st0) in *.
  set (st2 := {| ocr_progress := ocr_progress st1; ocr_status := Recognizing;
                 ocr_statusMessage := ocr_statusMessage st1;
                 ocr_result := ocr_result st1;
                 ocr_confidence := ocr_confidence st1 |}).
  destruct (logger_keeps engine (recognizeMessages engine) st2)
    as (_ & Hr2 & Hc2).
  set (st3 := fold_left (logger engine) (recognizeMessages engine) st2) in *.
  split.
  - intros Hfail. destruct (created engine); cbn [negb].
    + destruct Hfail as [Hfalse | Hnone]; [discriminate |]. rewrite Hnone.
      cbn. rewrite Hr2, Hc2. cbn. rewrite Hr1, Hc1. repeat split.
    + cbn. rewrite Hr1, Hc1. repeat split.
  - intros text confidence -> -> ->. cbn. repeat split.
Qed.

Lemma performOCR_failures_witness :
  ocr_result (run_state (performOCR failingEngine earlierOCR)) = None /\
  ocr_confidence (run_state (performOCR failingEngine earlierOCR))
  = ocr_confidence earlierOCR /\
  ocr_result (run_state (performOCR stuckEngine earlierOCR)) = Some "text".
Proof.
  destruct (performOCR_failures failingEngine earlierOCR) as (Hfail & _).
  destruct (Hfail ltac:(right; reflexivity)) as (_ & Hr & Hc & _).
  destruct (performOCR_failures stuckEngine earlierOCR) as (_ & Hstuck).
  destruct (Hstuck "text" 91.5%float eq_refl eq_refl eq_refl) as (_ & Ht & _).
  repeat split; assumption.
Defined.

Local Close Scope string_scope.

(** ** Previews and object URLs *)

Local Open Scope string_scope.

Lemma preprocessImageUrls_erase br file options next :
  erasePromise br file (fst (preprocessImageUrls br file options next))
  = preprocessImage br file options.
Proof.
  unfold preprocessImageUrls, preprocessImage.
  destruct (loadImage br file) as [img |]; [| reflexivity].
  destruct (canvasSize _ _ _) as [width height].
  destruct (negb (getContext2d br width height)); [reflexivity |].
  destruct (toDataURL br width height _); reflexivity.
Qed.

Lemma isRevoked_self n : Nat.eqb n n = true.
Proof. apply Nat.eqb_refl. Qed.

Lemma isRevoked_next n : Nat.eqb (S n) n = false.
Proof. apply Nat.eqb_neq. lia. Qed.

Lemma isRevoked_prev n : Nat.eqb n (S n) = false.
Proof. apply Nat.eqb_neq. lia. Qed.

Ltac count_alive :=
  cbn [alive flat_map isRevoked existsb app orb fst snd negb startsWithData
       file_events file_home preview];
  rewrite ?isRevoked_self, ?isRevoked_next, ?isRevoked_prev;
  cbn [orb app]; try reflexivity.

(** [preprocessImage] creates exactly one object URL per call, the fresh
    one, and revokes no other: its calls are the creation alone, or the
    creation followed by the revocation of that URL.  It revokes the URL
    exactly when the promise is rejected or resolves with a data URL.  It
    resolves with an object URL exactly in the fail-safe case, where the
    image loads and there is no drawing context, and then with its own one,
    left alive for the caller; when the promise never settles, that URL
    stays alive. *)
Theorem preprocess_url_accounting br file options next :
  let promise := fst (preprocessImageUrls br file options next) in
  let events := snd (preprocessImageUrls br file options next) in
  erasePromise br file promise = preprocessImage br file options /\
  (promise = PageRejected -> alive events = []) /\
  (forall s, promise = PageResolved (DataUrl s) -> alive events = []) /\
  (forall n, promise = PageResolved (ObjectUrl n) ->
     n = next /\ alive events = [next]) /\
  (promise = PagePending -> alive events = [next]) /\
  (events = [Create next]
   \/ events = [Create next; Revoke (ObjectUrl next)]) /\
  (events = [Create next; Revoke (ObjectUrl next)]
   <-> promise = PageRejected \/ exists s, promise = PageResolved (DataUrl s)) /\
  ((exists n, promise = PageResolved (ObjectUrl n))
   <-> exists img,
         loadImage br file = Some img /\
         getContext2d br
           (fst (canvasSize (resolveConfig options)
                   (img_width img) (img_height img)))
           (snd (canvasSize (resolveConfig options)
                   (img_width img) (img_height img))) = false).
Proof.
  intros promise events.
  split; [apply preprocessImageUrls_erase |].
  subst promise events. unfold preprocessImageUrls.
  destruct (loadImage br file) as [img |].
  - destruct (canvasSize _ _ _) as [width height] eqn:Hsize. cbn [fst snd].
    destruct (getContext2d br width height) eqn:Hctx; cbn [negb].
    + destruct (toDataURL br width height _) as [processedUrl |];
        cbn [fst snd].
      * split; [discriminate |]. split; [intros; count_alive |].
        split; [discriminate |]. split; [discriminate |].
        split; [right; reflexivity |].
        split; [split; [intros _; right; eexists; reflexivity | reflexivity] |].
        split; [intros (n & H); discriminate |].
        intros (img' & Himg & Hno). injection Himg as <-.
        rewrite Hsize in Hno. cbn [fst snd] in Hno. congruence.
      * split; [discriminate |]. split; [discriminate |].
        split; [discriminate |]. split; [intros; count_alive |].
        split; [left; reflexivity |].
        split; [split; [discriminate | intros [H | (s & H)]; discriminate] |].
        split; [intros (n & H); discriminate |].
        intros (img' & Himg & Hno). injection Himg as <-.
        rewrite Hsize in Hno. cbn [fst snd] in Hno. congruence.
    + cbn [fst snd].
      split; [discriminate |]. split; [discriminate |].
      split; [intros n H; injection H as <-; split; [reflexivity | count_alive] |].
      split; [discriminate |].
      split; [left; reflexivity |].
      split; [split; [discriminate | intros [H | (s & H)]; discriminate] |].
      split; [intros _; exists img; split;
                [reflexivity | rewrite Hsize; exact Hctx] |].
      intros _. exists next. reflexivity.
  - cbn [fst snd].
    split; [intros; count_alive |]. split; [discriminate |].
    split; [discriminate |]. split; [discriminate |].
    split; [right; reflexivity |].
    split; [split; [intros _; left; reflexivity | reflexivity] |].
    split; [intros (n & H); discriminate |].
    intros (img' & Himg & _). discriminate.
Qed.

Lemma preprocess_url_accounting_witness :
  alive (snd (preprocessImageUrls brokenEncoderBrowser [1; 2; 3]
                (Some handleFile_options) 5)) = [5%nat] /\
  snd (preprocessImageUrls workingBrowser [1; 2; 3]
         (Some handleFile_options) 5)
  = [Create 5; Revoke (ObjectUrl 5)].
Proof.
  split.
  - apply (preprocess_url_accounting brokenEncoderBrowser [1; 2; 3]
             (Some handleFile_options) 5).
    vm_compute. reflexivity.
  - apply (preprocess_url_accounting workingBrowser [1; 2; 3]
             (Some handleFile_options) 5).
    right. exists "data:image/png;base64,AAAA". vm_compute. reflexivity.
Defined.

Section PageRun.

Variables (br : Browser) (useEnglish usePreprocessing : bool).
Variables (home : Home) (file : list Z) (next : nat).

Local Abbreviation run :=
  (handleFilePage br useEnglish usePreprocessing home file next).

Lemma handleFilePage_cases :
  (usePreprocessing = false /\
   run = {| file_home := {| image := Some file; preview := Some (ObjectUrl next);
                            editableText := "" |};
            file_events :=
              (match preview home with Some p => [Revoke p] | None => [] end
               ++ [Create next])%list;
            file_ocr := Some (InputFile file,
                              if useEnglish then "amh+eng" else "amh") |})
  \/ (usePreprocessing = true /\
      exists promise events,
        preprocessImageUrls br file (Some handleFile_options) (S next)
        = (promise, events) /\
        file_events run
        = (match preview home with Some p => [Revoke p] | None => [] end
           ++ [Create next] ++ events)%list /\
        image (file_home run) = Some file /\
        editableText (file_home run) = "" /\
        match promise with
        | PageResolved processed =>
            preview (file_home run) = Some processed /\
            file_ocr run = Some (InputUrl processed,
                                 if useEnglish then "amh+eng" else "amh")
        | PageRejected =>
            preview (file_home run) = Some (ObjectUrl next) /\
            file_ocr run = Some (InputFile file,
                                 if useEnglish then "amh+eng" else "amh")
        | PagePending =>
            preview (file_home run) = Some (ObjectUrl next) /\
            file_ocr run = None
        end).
Proof.
  unfold handleFilePage. destruct usePreprocessing.
  - right. split; [reflexivity |].
    destruct (preprocessImageUrls br file (Some handleFile_options) (S next))
      as [promise events].
    exists promise, events. split; [reflexivity |].
    destruct promise; repeat split.
  - left. split; reflexivity.
Qed.

End PageRun.

(** What [handleFile] hands to recognition and shows as preview.  Without
    preprocessing, and when the promise of preprocessing is rejected,
    recognition receives the original file and the preview is the object
    URL made for it; when the promise resolves, recognition receives the
    URL it resolved with and the preview shows that same URL; when the
    promise never settles, recognition is not started.  So whenever
    recognition is started the preview shows exactly what recognition
    receives.  The text is cleared, the file recorded, and the languages
    are [amh+eng] with English on and [amh] otherwise. *)
Theorem handleFile_preview_matches_input br useEnglish usePreprocessing
    home file next :
  let run := handleFilePage br useEnglish usePreprocessing home file next in
  let langs := if useEnglish then "amh+eng" else "amh" in
  image (file_home run) = Some file /\
  editableText (file_home run) = "" /\
  (forall input langs, file_ocr run = Some (input, langs) ->
     langs = (if useEnglish then "amh+eng" else "amh") /\
     match input with
     | InputUrl u => preview (file_home run) = Some u /\ usePreprocessing = true
     | InputFile f => f = file /\ preview (file_home run) = Some (ObjectUrl next)
     end) /\
  (file_ocr run = None
   <-> usePreprocessing = true /\
       fst (preprocessImageUrls br file (Some handleFile_options) (S next))
       = PagePending) /\
  (usePreprocessing = false ->
   file_ocr run = Some (InputFile file, langs) /\
   preview (file_home run) = Some (ObjectUrl next)) /\
  (usePreprocessing = true ->
   match fst (preprocessImageUrls br file (Some handleFile_options) (S next))
   with
   | PageResolved processed =>
       file_ocr run = Some (InputUrl processed, langs) /\
       preview (file_home run) = Some processed
   | PageRejected =>
       file_ocr run = Some (InputFile file, langs) /\
       preview (file_home run) = Some (ObjectUrl next)
   | PagePending =>
       file_ocr run = None /\
       preview (file_home run) = Some (ObjectUrl next)
   end).
Proof.
  intros run langs. subst run langs.
  destruct (handleFilePage_cases br useEnglish usePreprocessing home file next)
    as [(Hoff & Hrun) | (Hon & promise & events & Hpre & _ & Himg & Htxt & Hcase)].
  - rewrite Hrun. cbn. subst usePreprocessing.
    repeat split; try discriminate.
    + injection H as <- <-. reflexivity.
    + injection H as <- <-. cbn. split; reflexivity.
    + intros (H & _). discriminate.
  - rewrite Hpre. cbn [fst]. split; [exact Himg |]. split; [exact Htxt |].
    destruct promise as [processed | |]; destruct Hcase as (Hprev & Hocr);
      rewrite Hocr.
    + split.
      * intros input langs H. injection H as <- <-.
        split; [reflexivity | split; assumption].
      * split; [split; [discriminate | intros (_ & H); discriminate] |].
        split; [intros Hoff; congruence |].
        intros _. split; [reflexivity | exact Hprev].
    + split.
      * intros input langs H. injection H as <- <-.
        split; [reflexivity | split; [reflexivity | assumption]].
      * split; [split; [discriminate | intros (_ & H); discriminate] |].
        split; [intros Hoff; congruence |].
        intros _. split; [reflexivity | exact Hprev].
    + split.
      * intros input langs H. discriminate.
      * split;
          [split; [intros _; split; [assumption | reflexivity] | reflexivity] |].
        split; [intros Hoff; congruence |].
        intros _. split; [reflexivity | exact Hprev].
Qed.

Lemma handleFile_preview_matches_input_witness :
  file_ocr (handleFilePage brokenEncoderBrowser false true emptyHome [1; 2; 3] 0)
  = None /\
  file_ocr (handleFilePage workingBrowser false true emptyHome [1; 2; 3] 0)
  = Some (InputUrl (DataUrl "data:image/png;base64,AAAA"), "amh") /\
  preview
    (file_home (handleFilePage workingBrowser false true emptyHome [1; 2; 3] 0))
  = Some (DataUrl "data:image/png;base64,AAAA").
Proof.
  split.
  - pose proof (handleFile_preview_matches_input brokenEncoderBrowser false
                  true emptyHome [1; 2; 3] 0) as (_ & _ & _ & Hnone & _).
    apply Hnone. split; [reflexivity | vm_compute; reflexivity].
  - pose proof (handleFile_preview_matches_input workingBrowser false true
                  emptyHome [1; 2; 3] 0) as (_ & _ & _ & _ & _ & Hon).
    specialize (Hon eq_refl).
    replace (fst (preprocessImageUrls workingBrowser [1; 2; 3]
                    (Some handleFile_options) 1))
      with (PageResolved (DataUrl "data:image/png;base64,AAAA")) in Hon
      by (vm_compute; reflexivity).
    exact Hon.
Defined.

(** Choosing a file on a page without preview and then clearing the page
    revokes every object URL that was created exactly when preprocessing is
    off or the image cannot be loaded.  In every other case one object URL
    stays alive for good: the one made for the first preview when
    preprocessing resolves (with a data URL or, without a drawing context,
    with its own object URL), and the one made by [preprocessImage] when its
    promise never settles. *)
Theorem handleFile_then_clear_urls br useEnglish usePreprocessing home file next :
  preview home = None ->
  let run := handleFilePage br useEnglish usePreprocessing home file next in
  let cleared := handleClearPage (file_home run) in
  let events := (file_events run ++ snd cleared)%list in
  fst cleared = {| image := None; preview := None; editableText := "" |} /\
  (usePreprocessing = false \/ loadImage br file = None -> alive events = []) /\
  (usePreprocessing = true ->
   forall promise,
     fst (preprocessImageUrls br file (Some handleFile_options) (S next))
     = promise ->
     match promise with
     | PageRejected => loadImage br file = None
     | PageResolved _ => loadImage br file <> None /\ alive events = [next]
     | PagePending => loadImage br file <> None /\ alive events = [S next]
     end).
Proof.
  intros Hnone run cleared events. subst run cleared events.
  split; [reflexivity |].
  unfold handleFilePage, handleClearPage, preprocessImageUrls.
  rewrite Hnone. destruct usePreprocessing.
  - split.
    + intros [Hoff | Hload]; [discriminate |]. rewrite Hload. count_alive.
    + intros _ promise <-.
      destruct (loadImage br file) as [img |]; [| reflexivity].
      destruct (canvasSize _ _ _) as [width height].
      destruct (negb (getContext2d br width height));
        [split; [discriminate | count_alive] |].
      destruct (toDataURL br width height _);
        (split; [discriminate | count_alive]).
  - split; [intros _; count_alive | discriminate].
Qed.

Lemma handleFile_then_clear_urls_witness :
  alive
    (file_events (handleFilePage workingBrowser false true emptyHome [1; 2; 3] 0)
     ++ snd (handleClearPage
               (file_home
                  (handleFilePage workingBrowser false true emptyHome
                     [1; 2; 3] 0))))%list
  = [0%nat].
Proof.
  pose proof (handleFile_then_clear_urls workingBrowser false true emptyHome
                [1; 2; 3] 0 eq_refl) as (_ & _ & Hon).
  specialize (Hon eq_refl _ eq_refl).
  vm_compute in Hon. destruct Hon as (_ & Halive).
  vm_compute. exact Halive.
Defined.

Local Close Scope string_scope.
(** ** Falling back to the original file *)

(** For every input whose bytes cannot be decoded,
    preprocessImage rejects its promise, whatever the options, and
    handleFile catches the rejection and hands the original file unchanged
    to the recognition engine instead of raising an error; likewise, when
    the image loads but no drawing context is available, preprocessImage
    resolves with the object URL of the original file and handleFile hands
    that URL on. *)
Theorem fail_open br file :
  (loadImage br file = None ->
   (forall options, preprocessImage br file options = Rejected) /\
   (forall usePreprocessing,
      handleFile br usePreprocessing file = Some (OriginalFile file))) /\
  (forall img, loadImage br file = Some img ->
   (forall width height, getContext2d br width height = false) ->
   (forall options,
      preprocessImage br file options = Resolved (createObjectURL br file)) /\
   handleFile br true file = Some (ProcessedUrl (createObjectURL br file))).
Proof.
  split.
  - intros Hload.
    assert (Hrej : forall options, preprocessImage br file options = Rejected).
    { intros options. unfold preprocessImage. rewrite Hload. reflexivity. }
    split; [exact Hrej |].
    intros usePreprocessing. unfold handleFile.
    destruct usePreprocessing; [rewrite Hrej |]; reflexivity.
  - intros img Himg Hctx.
    assert (Hres : forall options,
              preprocessImage br file options
              = Resolved (createObjectURL br file)).
    { intros options. unfold preprocessImage. rewrite Himg.
      destruct (canvasSize _ _ _) as [width height].
      rewrite Hctx. reflexivity. }
    split; [exact Hres |].
    unfold handleFile. rewrite Hres. reflexivity.
Qed.

Lemma fail_open_witness :
  handleFile brokenFileBrowser true [255; 216; 0; 1]
  = Some (OriginalFile [255; 216; 0; 1]) /\
  handleFile noContextBrowser true [255; 216; 0; 1]
  = Some (ProcessedUrl "blob:original").
Proof.
  pose proof (fail_open brokenFileBrowser [255; 216; 0; 1]) as (Hdecode & _).
  pose proof (fail_open noContextBrowser [255; 216; 0; 1]) as (_ & Hcontext).
  split.
  - apply Hdecode. reflexivity.
  - apply (Hcontext {| img_width := 1; img_height := 1 |});
      [reflexivity | intros width height; reflexivity].
Defined.
